(** * GemScribe-AI: prompt construction and response chunking

    A shallow embedding of the two pure functions at the heart of the
    application, [buildPrompt] (services/geminiService) and [parseContent]
    (components/ContentOutput), together with the chunk handlers of the
    [ContentOutput] component and [regenerateContentChunk].

    JavaScript strings are sequences of UTF-16 code units; they are modelled
    as lists of [N].  ASCII literals of the source are written as Rocq
    strings and injected with [lit]. *)

From Stdlib Require Import String Ascii.
From Stdlib Require Import List NArith Bool Arith Lia.
From Stdlib Require Import DecimalString DecimalNat.
Import ListNotations.

(* ===================================================================== *)
(** ** JavaScript strings *)
(* ===================================================================== *)

Module JsString.

Definition jsstring := list N.

(** An ASCII literal of the source as a code-unit sequence. *)
Definition lit (s : string) : jsstring :=
  map N_of_ascii (list_ascii_of_string s).

Definition nl : N := 10.
Definition space : N := 32.
Definition hash : N := 35.
Definition dquote : N := 34.

(** The double quote cannot be written inside a Rocq literal without
    doubling it; [dq] stands for the one-character string. *)
Definition dq : jsstring := [dquote].

(** ECMAScript WhiteSpace and LineTerminator code points: what
    [String.prototype.trim] strips and what [\s] matches. *)
Definition isWhiteSpace (c : N) : bool :=
  ((9 <=? c) && (c <=? 13) || (c =? 32) || (c =? 160) || (c =? 5760)
   || (8192 <=? c) && (c <=? 8202) || (c =? 8232) || (c =? 8233)
   || (c =? 8239) || (c =? 8287) || (c =? 12288) || (c =? 65279))%N.

Fixpoint eqb (s t : jsstring) : bool :=
  match s, t with
  | [], [] => true
  | a :: s', b :: t' => (a =? b)%N && eqb s' t'
  | _, _ => false
  end.

(** Truthiness of a string: only the empty string is falsy. *)
Definition truthy (s : jsstring) : bool :=
  match s with [] => false | _ :: _ => true end.

(** Truthiness of an optional string property: [undefined] and the empty
    string are falsy. *)
Definition truthyOpt (o : option jsstring) : bool :=
  match o with Some s => truthy s | None => false end.

Fixpoint trimStart (s : jsstring) : jsstring :=
  match s with
  | [] => []
  | c :: t => if isWhiteSpace c then trimStart t else s
  end.

Definition trimEnd (s : jsstring) : jsstring := rev (trimStart (rev s)).

Definition trim (s : jsstring) : jsstring := trimEnd (trimStart s).

Fixpoint startsWith (p s : jsstring) : bool :=
  match p, s with
  | [], _ => true
  | a :: p', b :: s' => (a =? b)%N && startsWith p' s'
  | _ :: _, [] => false
  end.

(** [s.includes(n)]. *)
Fixpoint includes (n s : jsstring) : bool :=
  startsWith n s ||
  match s with
  | [] => false
  | _ :: t => includes n t
  end.

(** [s.split(sep)] for a one-character separator. *)
Fixpoint splitChar (sep : N) (s : jsstring) : list jsstring :=
  match s with
  | [] => [[]]
  | c :: t =>
      let r := splitChar sep t in
      if (c =? sep)%N then [] :: r else (c :: hd [] r) :: tl r
  end.

(** [l.join(sep)]. *)
Fixpoint join (sep : jsstring) (l : list jsstring) : jsstring :=
  match l with
  | [] => []
  | [x] => x
  | x :: r => x ++ sep ++ join sep r
  end.

(** [s.replace(pat, repl)] for a string pattern: the first occurrence only.
    The replacement used by the source has no dollar pattern. *)
Fixpoint replaceFirst (pat repl s : jsstring) : jsstring :=
  if startsWith pat s then repl ++ skipn (length pat) s
  else match s with
       | [] => []
       | c :: t => c :: replaceFirst pat repl t
       end.

(** [String(n)] for an array index. *)
Definition numToString (n : nat) : jsstring :=
  lit (NilEmpty.string_of_uint (Nat.to_uint n)).

(** [l.map((x, index) => f x index)]. *)
Fixpoint mapiFrom {A B} (f : A -> nat -> B) (i : nat) (l : list A) : list B :=
  match l with
  | [] => []
  | x :: r => f x i :: mapiFrom f (S i) r
  end.

Definition mapi {A B} (f : A -> nat -> B) (l : list A) : list B :=
  mapiFrom f 0 l.

(** Only white space (the empty string included). *)
Definition allWhite (s : jsstring) : bool := forallb isWhiteSpace s.

(** Substring, as a proposition. *)
Definition Contains (h n : jsstring) : Prop :=
  exists a b, h = a ++ n ++ b.

(** No leading and no trailing white space. *)
Definition Trimmed (s : jsstring) : Prop :=
  (forall c t, s = c :: t -> isWhiteSpace c = false) /\
  (forall t c, s = t ++ [c] -> isWhiteSpace c = false).

End JsString.
Import JsString.

(* ===================================================================== *)
(** ** Response chunker (components/ContentOutput) *)
(* ===================================================================== *)

Record GeneratedContentChunk := mkChunk {
  id : jsstring;
  title : jsstring;
  content : jsstring
}.

Module Chunker.

(** The lookahead of [/(?=###\s)/] at the start of [s]. *)
Definition markerAt (s : jsstring) : bool :=
  match s with
  | a :: b :: c :: w :: _ =>
      (a =? hash)%N && (b =? hash)%N && (c =? hash)%N && isWhiteSpace w
  | _ => false
  end.

(** [s.split(/(?=###\s)/)].  The pattern is zero-width, so the string is
    cut before every index [q > 0] at which the lookahead succeeds; a match
    at index 0 is skipped by the split algorithm (the match end equals the
    start of the current piece) and no piece is empty unless [s] is. *)
Fixpoint splitBeforeMarker (s : jsstring) : list jsstring :=
  match s with
  | [] => [[]]
  | c :: t =>
      let r := splitBeforeMarker t in
      if markerAt t then [c] :: r else (c :: hd [] r) :: tl r
  end.

(** [rawContent.split(/(?=###\s)/).filter(s => s.trim() !== '')]. *)
Definition sections (rawContent : jsstring) : list jsstring :=
  filter (fun s => negb (eqb (trim s) [])) (splitBeforeMarker rawContent).

Definition defaultTitle : jsstring := lit "Generated Content".

Definition chunkId (index : nat) : jsstring :=
  lit "chunk-" ++ numToString index.

Definition sectionToChunk (section : jsstring) (index : nat)
  : GeneratedContentChunk :=
  let lines := splitChar nl (trim section) in
  let title := trim (replaceFirst (lit "###") [] (hd [] lines)) in
  let content := trim (join [nl] (tl lines)) in
  mkChunk (chunkId index) title content.

Definition parseContent (rawContent : jsstring) : list GeneratedContentChunk :=
  if negb (truthy rawContent) then []
  else
    let sections := sections rawContent in
    if (length sections <=? 1) && truthy (trim rawContent)
    then [mkChunk (chunkId 0) defaultTitle (trim rawContent)]
    else mapi sectionToChunk sections.

(** The template [`### ${c.title}\n\n${c.content}`]. *)
Definition renderChunk (c : GeneratedContentChunk) : jsstring :=
  lit "### " ++ title c ++ [nl; nl] ++ content c.

(** The text [updateFullContentFromChunks] hands to [onUpdateFullContent]. *)
Definition updateFullContentFromChunks (updatedChunks : list GeneratedContentChunk)
  : jsstring :=
  join [nl; nl] (map renderChunk updatedChunks).

End Chunker.
Import Chunker.


(* ===================================================================== *)
(** ** Prompt builder (services/geminiService) *)
(* ===================================================================== *)

Record ProductImage := mkImage {
  base64 : jsstring;
  mimeType : jsstring
}.

Record ContentGenerationParams := mkParams {
  productName : jsstring;
  contentType : jsstring;
  country : jsstring;
  tone : jsstring;
  contentLength : option jsstring;
  starRating : option jsstring;
  seoKeywords : option jsstring;
  companyName : option jsstring;
  occasion : option jsstring;
  brandVoice : option jsstring;
  generateAbTest : bool;
  generateSocialPost : bool;
  productImage : option ProductImage
}.


Module PromptBuilder.

(** [${x}] for an optional string property. *)
Definition interp (o : option jsstring) : jsstring :=
  match o with Some s => s | None => lit "undefined" end.

(** Base instructions: the initial value of [basePrompt]. *)
Definition baseInstructions : jsstring :=
  [nl] ++ lit "You are an expert, world-class e-commerce copywriter for fashion and jewelry brands. Your writing is sophisticated, engaging, and SEO-optimized." ++ [nl; nl] ++ lit "**CRITICAL INSTRUCTION:** Your final output should ONLY be the generated content itself, formatted in markdown with " ++ dq ++ lit "###" ++ dq ++ lit " for each distinct section/title. DO NOT repeat the input parameters like " ++ dq ++ lit "Product Name:" ++ dq ++ lit ", " ++ dq ++ lit "Tone:" ++ dq ++ lit ", etc., in your response. The product name and keywords should be woven naturally into the text." ++ [nl; nl] ++ lit "---" ++ [nl] ++ lit "**CONTENT DETAILS**" ++ [nl] ++ lit "---" ++ [nl].

(** An optional labelled line, appended only when the property is truthy. *)
Definition optLine (label : jsstring) (o : option jsstring) : jsstring :=
  if truthyOpt o then label ++ interp o ++ [nl] else [].

(** The parameter echo appended to [basePrompt]. *)
Definition parameterLines (params : ContentGenerationParams) : jsstring :=
  lit "**Product Name/Link:** " ++ productName params ++ [nl] ++
  lit "**Tone of Voice:** " ++ tone params ++ [nl] ++
  lit "**Target Audience/Country:** " ++ country params ++ [nl] ++
  optLine (lit "**Company Name:** ") (companyName params) ++
  optLine (lit "**Occasion:** ") (occasion params) ++
  optLine (lit "**Brand Voice Guidelines:** ") (brandVoice params) ++
  optLine (lit "**SEO Keywords to include naturally:** ") (seoKeywords params).

Definition taskHeader (params : ContentGenerationParams) : jsstring :=
  [nl] ++ lit "---" ++ [nl] ++ lit "**GENERATION TASK**" ++ [nl] ++ lit "---" ++ [nl] ++
  lit "**Content Type to Generate:** " ++ contentType params ++ [nl].

(** The text of the SEO-hook directive. *)
Definition seoFocus : jsstring :=
  [nl] ++ lit "**SEO Focus:** Start with a compelling, SEO-optimized introductory sentence or meta description (under 160 characters) that naturally incorporates the primary keywords. This sentence should serve as a powerful hook.".

Definition seoDirective (params : ContentGenerationParams) : jsstring :=
  if truthyOpt (seoKeywords params) && truthy (productName params)
  then seoFocus else [].

Definition lengthDirective (params : ContentGenerationParams) : jsstring :=
  if truthyOpt (contentLength params)
     && negb (eqb (interp (contentLength params)) (lit "Default"))
  then lit " Keep the length " ++ interp (contentLength params) ++ lit "."
  else [].

Definition ratingDirective (params : ContentGenerationParams) : jsstring :=
  if truthyOpt (starRating params)
  then lit " The reviews should reflect a " ++ interp (starRating params) ++ lit " rating. You can represent the stars visually (e.g., " ++ [11088%N; 11088%N; 11088%N; 11088%N; 11088%N] ++ lit "). Do not add any other metadata like 'Product Name' to the review body."
  else [].

(** The branches of the [switch (params.contentType)]. *)
Definition productDescriptionTask (params : ContentGenerationParams) : jsstring :=
  lit "**Task:** Write a compelling product description." ++ seoDirective params ++ lit " Then, detail the key features and benefits, and end with a call to action. Weave the SEO keywords throughout the description."
  ++ lengthDirective params.

Definition productReviewsTask (params : ContentGenerationParams) : jsstring :=
  lit "**Task:** Generate three distinct and realistic product reviews from different customer personas (e.g., a gift buyer, a long-time fan, a first-time customer)."
  ++ ratingDirective params.

Definition socialMediaPostTask (params : ContentGenerationParams) : jsstring :=
  lit "**Task:** Create an engaging social media post suitable for platforms like Instagram or Facebook." ++ seoDirective params ++ lit " Include relevant, popular hashtags at the end.".

Definition emailCampaignTask (params : ContentGenerationParams) : jsstring :=
  lit "**Task:** Write copy for an email campaign. It MUST include an attention-grabbing subject line and a clear call-to-action (CTA) button text." ++ seoDirective params ++ lit " The email body should expand on this hook. Format it like:" ++ [nl] ++ lit "### Subject: [Your Subject Here]" ++ [nl; nl] ++ lit "[Email body here]" ++ [nl; nl] ++ lit "### CTA Button: [Your CTA Text Here]".

Definition blogPostIntroTask (params : ContentGenerationParams) : jsstring :=
  lit "**Task:** Write an introductory paragraph for a blog post about this product." ++ seoDirective params ++ lit " It should hook the reader and briefly state what the post will cover.".

Definition adCopyTask (params : ContentGenerationParams) : jsstring :=
  lit "**Task:** Write two short, punchy ad copy variations. Each should have a clear headline and a concise body text. Format it like:" ++ [nl] ++ lit "### Ad 1: [Headline]" ++ [nl; nl] ++ lit "[Body]" ++ [nl; nl] ++ lit "### Ad 2: [Headline]" ++ [nl; nl] ++ lit "[Body]".

Definition fallbackTask : jsstring :=
  lit "**Task:** Generate the content as requested.".

(** What the [switch (params.contentType)] appends to [basePrompt]. *)
Definition taskDirective (params : ContentGenerationParams) : jsstring :=
  if eqb (contentType params) (lit "Product Description") then
    productDescriptionTask params
  else if eqb (contentType params) (lit "Product Reviews (3)") then
    productReviewsTask params
  else if eqb (contentType params) (lit "Social Media Post") then
    socialMediaPostTask params
  else if eqb (contentType params) (lit "Email Campaign") then
    emailCampaignTask params
  else if eqb (contentType params) (lit "Blog Post Intro") then
    blogPostIntroTask params
  else if eqb (contentType params) (lit "Ad Copy") then
    adCopyTask params
  else fallbackTask.

(** Global additional requirements. *)
Definition additionalRequirements (params : ContentGenerationParams) : jsstring :=
  (if generateAbTest params
   then [nl] ++ lit "**Also generate one A/B test variant** for the primary content. Title it " ++ dq ++ lit "### A/B Test Variant: [Original Title]" ++ dq ++ lit "."
   else []) ++
  (if generateSocialPost params
      && negb (eqb (contentType params) (lit "Social Media Post"))
   then [nl] ++ lit "**Also generate a related social media post**. Title it " ++ dq ++ lit "### Social Media Post" ++ dq ++ lit "."
   else []).

(** The value of [basePrompt] when the regeneration test is reached. *)
Definition basePrompt (params : ContentGenerationParams) : jsstring :=
  baseInstructions ++ parameterLines params ++ taskHeader params ++
  taskDirective params ++ [nl] ++ additionalRequirements params.

Definition regenerationIntro : jsstring :=
  [nl] ++ lit "You are an expert e-commerce copywriter. Based on the original parameters provided below, your task is to regenerate ONLY the content for the section titled " ++ dq.

Definition regenerationInstruction : jsstring :=
  lit "**CRITICAL INSTRUCTION:** Provide ONLY the new text for this section. Do not include the title or any markdown like " ++ dq ++ lit "###" ++ dq ++ lit ". Just the raw, regenerated content.".

Definition regenerationContextHeader : jsstring :=
  [nl; nl] ++ lit "---" ++ [nl] ++ lit "**ORIGINAL PARAMETERS**" ++ [nl] ++ lit "---" ++ [nl].

Definition closingLine : jsstring :=
  [nl] ++ lit "Now, generate the content based on these instructions.".

Definition buildPrompt (params : ContentGenerationParams)
    (chunkToRegen : option GeneratedContentChunk) : jsstring :=
  match chunkToRegen with
  | Some chunk =>
      regenerationIntro ++ title chunk ++ dq ++ lit ". " ++ [nl; nl] ++
      regenerationInstruction ++ regenerationContextHeader ++
      basePrompt params ++ [nl]
  | None => basePrompt params ++ closingLine
  end.

End PromptBuilder.
Import PromptBuilder.

(* ===================================================================== *)
(** ** Single-chunk regeneration *)
(* ===================================================================== *)

Module Regeneration.

(** What a [throw] carries: an [Error] with its message, or any other value. *)
Inductive thrown :=
| ErrorObject (message : jsstring)
| OtherValue.

(** How the awaited [ai.models.generateContent] call ends: it rejects, or
    it resolves with a response whose [text] may be [undefined]. *)
Inductive apiOutcome :=
| Rejects (e : thrown)
| Resolves (text : option jsstring).

Record Request := mkRequest {
  requestImage : option ProductImage;
  requestText : jsstring
}.

(** A rejected promise carries the message of the [Error] thrown. *)
Inductive promise (A : Type) :=
| Fulfilled (value : A)
| Rejected (message : jsstring).
Arguments Fulfilled {A} value.
Arguments Rejected {A} message.

Definition emptyResponseMessage : jsstring :=
  lit "Received an empty response from the AI.".

(** The [catch] clause of [regenerateContentChunk]. *)
Definition rethrow (error : thrown) : jsstring :=
  match error with
  | ErrorObject message => lit "Failed to regenerate content: " ++ message
  | OtherValue => lit "An unknown error occurred while regenerating content."
  end.

Definition regenerateContentChunk
    (generateContent : Request -> apiOutcome)
    (params : ContentGenerationParams)
    (chunkToRegen : GeneratedContentChunk) : promise jsstring :=
  let prompt := buildPrompt params (Some chunkToRegen) in
  match generateContent (mkRequest (productImage params) prompt) with
  | Rejects error => Rejected (rethrow error)
  | Resolves text =>
      if negb (truthyOpt text)
      then Rejected (rethrow (ErrorObject emptyResponseMessage))
      else Fulfilled (trim (interp text))
  end.

(** The state of the [ContentOutput] component the handlers touch. *)
Record OutputState := mkState {
  chunks : list GeneratedContentChunk;
  regeneratingChunkId : option jsstring
}.

(** A handler returns the next state and the text it passed to
    [onUpdateFullContent], if it called it. *)
Definition handled : Type := OutputState * option jsstring.

Definition setContent (targetId newContent : jsstring)
    (chunk : GeneratedContentChunk) : GeneratedContentChunk :=
  if eqb (id chunk) targetId
  then mkChunk (id chunk) (title chunk) newContent
  else chunk.

Definition handleDeleteChunk (st : OutputState) (targetId : jsstring) : handled :=
  let newChunks := filter (fun chunk => negb (eqb (id chunk) targetId)) (chunks st) in
  (mkState newChunks (regeneratingChunkId st),
   Some (updateFullContentFromChunks newChunks)).

Definition handleUpdateChunk (st : OutputState) (targetId newContent : jsstring)
  : handled :=
  let newChunks := map (setContent targetId newContent) (chunks st) in
  (mkState newChunks (regeneratingChunkId st),
   Some (updateFullContentFromChunks newChunks)).

Definition handleRegenerateChunk
    (generateContent : Request -> apiOutcome)
    (params : option ContentGenerationParams)
    (st : OutputState) (chunkToRegen : GeneratedContentChunk) : handled :=
  match params with
  | None => (st, None)
  | Some params =>
      match regenerateContentChunk generateContent params chunkToRegen with
      | Fulfilled newContent =>
          let newChunks := map (setContent (id chunkToRegen) newContent) (chunks st) in
          (mkState newChunks None, Some (updateFullContentFromChunks newChunks))
      | Rejected _ => (mkState (chunks st) None, None)
      end
  end.

(** The effect on [rawContent]: the component shows [parseContent] of it. *)
Definition displayed (rawContent : jsstring) : OutputState :=
  mkState (parseContent rawContent) None.

End Regeneration.
Import Regeneration.


(* ===================================================================== *)
(** ** Vocabulary of the properties *)
(* ===================================================================== *)

Module Props.

(** The lookahead of the chunker succeeds at no index of [s]. *)
Fixpoint markerFree (s : jsstring) : bool :=
  match s with
  | [] => true
  | _ :: t => negb (markerAt s) && markerFree t
  end.

(** The lookahead succeeds at no index of [u ++ v] that lies in [u]. *)
Fixpoint cutFree (u v : jsstring) : bool :=
  match u with
  | [] => true
  | _ :: u' => negb (markerAt (u ++ v)) && cutFree u' v
  end.

(** A title the chunker gives back unchanged: not empty, no surrounding
    white space, on one line, and no ["###"] followed by white space, also
    when a line break follows the title. *)
Definition WellFormedTitle (t : jsstring) : Prop :=
  t <> [] /\ Trimmed t /\ ~ In nl t /\ markerFree (t ++ [nl]) = true.

(** A body the chunker gives back unchanged. *)
Definition WellFormedBody (b : jsstring) : Prop :=
  b <> [] /\ Trimmed b /\ markerFree (b ++ [nl]) = true.

Definition WellFormedChunk (c : GeneratedContentChunk) : Prop :=
  WellFormedTitle (title c) /\ WellFormedBody (content c).

(** Two chunk lists with the same titles and bodies, in the same order. *)
Definition sameText (C D : list GeneratedContentChunk) : Prop :=
  map (fun c => (title c, content c)) C = map (fun c => (title c, content c)) D.

(** The pieces the split finds in a reassembled text. *)
Fixpoint renderedSections (C : list GeneratedContentChunk) : list jsstring :=
  match C with
  | [] => []
  | [c] => [renderChunk c]
  | c :: C' => (renderChunk c ++ [nl; nl]) :: renderedSections C'
  end.

(** The split as the specification words it: a cut only before a marker
    that begins a line. *)
Fixpoint splitAtHeadingLines (s : jsstring) : list jsstring :=
  match s with
  | [] => [[]]
  | c :: t =>
      let r := splitAtHeadingLines t in
      if (c =? nl)%N && markerAt t then [c] :: r else (c :: hd [] r) :: tl r
  end.



(** The content types whose task directive carries the SEO hook. *)
Definition seoContentTypes : list jsstring :=
  [ lit "Product Description";
    lit "Social Media Post";
    lit "Email Campaign";
    lit "Blog Post Intro" ].

(** The heading of the SEO-hook directive, at the start of a line. *)
Definition seoHeadingLine : jsstring := [nl] ++ lit "**SEO Focus:**".

Definition optContains (o : option jsstring) (n : jsstring) : Prop :=
  match o with Some s => Contains s n | None => False end.

(** No text field of the parameters has a line starting with the heading
    of the SEO-hook directive. *)
Definition NoSeoHeading (params : ContentGenerationParams) : Prop :=
  ~ Contains (productName params) seoHeadingLine /\
  ~ Contains (contentType params) seoHeadingLine /\
  ~ Contains (country params) seoHeadingLine /\
  ~ Contains (tone params) seoHeadingLine /\
  ~ optContains (contentLength params) seoHeadingLine /\
  ~ optContains (starRating params) seoHeadingLine /\
  ~ optContains (seoKeywords params) seoHeadingLine /\
  ~ optContains (companyName params) seoHeadingLine /\
  ~ optContains (occasion params) seoHeadingLine /\
  ~ optContains (brandVoice params) seoHeadingLine.

(** The SEO-hook directive after its leading line break, and its heading. *)
Definition seoFocusLine : jsstring := tl seoFocus.
Definition seoHeading : jsstring := lit "**SEO Focus:**".

(** Whether the prompt builder inserts the SEO-hook directive. *)
Definition seoInserted (params : ContentGenerationParams) : bool :=
  truthyOpt (seoKeywords params) && truthy (productName params)
  && existsb (eqb (contentType params)) seoContentTypes.

(** The additional requirements and the closing line, by the two tests
    that guard the requirements. *)
Definition closingFor (abTest socialPost : bool) : jsstring :=
  (if abTest
   then [nl] ++ lit "**Also generate one A/B test variant** for the primary content. Title it " ++ dq ++ lit "### A/B Test Variant: [Original Title]" ++ dq ++ lit "."
   else []) ++
  (if socialPost
   then [nl] ++ lit "**Also generate a related social media post**. Title it " ++ dq ++ lit "### Social Media Post" ++ dq ++ lit "."
   else []) ++
  closingLine.

(** A definite mismatch between [n] and [x] within their common length. *)
Fixpoint mismatch (n x : jsstring) : bool :=
  match n, x with
  | a :: n', b :: x' => negb (a =? b)%N || mismatch n' x'
  | _, _ => false
  end.

(** After no line break of [x] can [n] follow, whatever is appended to [x]. *)
Fixpoint lineSafe (n x : jsstring) : bool :=
  match x with
  | [] => true
  | c :: t => (negb (c =? nl)%N || mismatch n t) && lineSafe n t
  end.

(** Whatever proper prefix of [n] shorter than [k] precedes [f], the rest
    of [n] does not follow. *)
Fixpoint stopsPrefixes (n f : jsstring) (k : nat) : bool :=
  match k with
  | O => true
  | S k' => mismatch (skipn k' n) f && stopsPrefixes n f k'
  end.

End Props.
Import Props.

(* ===================================================================== *)
(** ** Concrete inputs *)
(* ===================================================================== *)

Module Samples.

(** The input of the heading-split example. *)
Definition twoHeadings : jsstring :=
  lit "### A" ++ [nl] ++ lit "body1" ++ [nl] ++ lit "### B" ++ [nl] ++ lit "body2".

(** A list of one chunk, with a title and a body. *)
Definition oneChunk : list GeneratedContentChunk :=
  [ mkChunk (lit "chunk-0") (lit "A") (lit "b") ].

(** An e-mail campaign in two sections. *)
Definition emailChunks : list GeneratedContentChunk :=
  [ mkChunk (lit "chunk-0") (lit "Subject: Shine on") (lit "Dear reader," ++ [nl] ++ lit "gold is back.");
    mkChunk (lit "chunk-1") (lit "CTA Button: Shop now") (lit "Shop the Aurora line") ].

(** A marker in the middle of a line. *)
Definition midLineMarker : jsstring :=
  lit "### A" ++ [nl] ++ lit "foo ### B".

Definition plainText : jsstring := lit "hello".

Definition adCopyParams : ContentGenerationParams :=
  mkParams (lit "Aurora Necklace") (lit "Ad Copy") (lit "USA") (lit "Professional")
           None None (Some (lit "gold necklace")) None None None false false None.

Definition blogParams : ContentGenerationParams :=
  mkParams (lit "Aurora Necklace") (lit "Blog Post Intro") (lit "USA") (lit "Professional")
           None None (Some (lit "gold necklace")) None None None false false None.

(** Parameters with empty required fields and no optional field. *)
Definition bareParams : ContentGenerationParams :=
  mkParams [] [] [] [] None None None None None None false false None.

Definition chunkA : GeneratedContentChunk :=
  mkChunk (lit "chunk-0") (lit "Ad 1: Shine") (lit "Gold that lasts.").

End Samples.
Import Samples.

(* ===================================================================== *)
(** ** Streaming generation (services/geminiService) *)
(* ===================================================================== *)

Module Streaming.

(** What the awaited [generateContentStream] call and the iteration over
    its result show: the [text] of each chunk received, in order, and the
    value thrown if the call or the iteration fails after them. *)
Record StreamRun := mkRun {
  received : list (option jsstring);
  thrownAfter : option thrown
}.

(** The loop state: [fullContent], and the arguments of the calls of
    [onChunk] made so far, in order. *)
Definition loopState : Type := jsstring * list jsstring.

(** One turn of [for await (const chunk of responseStream)]. *)
Definition consume (acc : loopState) (text : option jsstring) : loopState :=
  if truthyOpt text
  then (fst acc ++ interp text, snd acc ++ [interp text])
  else acc.

Definition runLoop (run : StreamRun) : loopState :=
  fold_left consume (received run) ([], []).

(** The [catch] clause of [streamGeneratedContent]. *)
Definition rethrowGenerate (error : thrown) : jsstring :=
  match error with
  | ErrorObject message => lit "Failed to generate content: " ++ message
  | OtherValue => lit "An unknown error occurred while generating content."
  end.

(** The [catch] clause of [streamImprovedContent]. *)
Definition rethrowImprove (error : thrown) : jsstring :=
  match error with
  | ErrorObject message => lit "Failed to improve content: " ++ message
  | OtherValue => lit "An unknown error occurred while improving content."
  end.

(** A streaming function gives the calls of [onChunk] it made and the
    promise it returns. *)
Definition streamed : Type := list jsstring * promise jsstring.

Definition streamGeneratedContent
    (generateContentStream : Request -> StreamRun)
    (params : ContentGenerationParams) : streamed :=
  let prompt := buildPrompt params None in
  let run := generateContentStream (mkRequest (productImage params) prompt) in
  let '(fullContent, calls) := runLoop run in
  match thrownAfter run with
  | None => (calls, Fulfilled fullContent)
  | Some error => (calls, Rejected (rethrowGenerate error))
  end.

(** The prompt of [streamImprovedContent]. *)
Definition improvePrompt (originalText improvementAction : jsstring)
    (tone : option jsstring) : jsstring :=
  ([nl] ++ lit "You are an expert, world-class copy editor. Your task is to improve the provided text based on the user's request." ++ [nl; nl] ++ lit "**CRITICAL INSTRUCTION:** Your final output should ONLY be the improved text itself. Do not add any conversational filler, preambles, or explanations like " ++ dq ++ lit "Here is the improved version:" ++ dq ++ lit "." ++ [nl; nl] ++ lit "---" ++ [nl] ++ lit "**IMPROVEMENT TASK**" ++ [nl] ++ lit "---" ++ [nl] ++ lit "**Action:** " ++ improvementAction ++ [nl]) ++
  (if eqb improvementAction (lit "Change Tone") && truthyOpt tone
   then lit "**New Tone:** " ++ interp tone ++ [nl]
   else []) ++
  ([nl] ++ lit "---" ++ [nl] ++ lit "**ORIGINAL TEXT**" ++ [nl] ++ lit "---" ++ [nl] ++ originalText ++ [nl; nl] ++ lit "---" ++ [nl] ++ lit "**IMPROVED TEXT (Your Output):**" ++ [nl] ++ lit "---" ++ [nl]).

Definition streamImprovedContent
    (generateContentStream : Request -> StreamRun)
    (originalText improvementAction : jsstring) (tone : option jsstring)
  : streamed :=
  let prompt := improvePrompt originalText improvementAction tone in
  let run := generateContentStream (mkRequest None prompt) in
  let '(fullContent, calls) := runLoop run in
  match thrownAfter run with
  | None => (calls, Fulfilled fullContent)
  | Some error => (calls, Rejected (rethrowImprove error))
  end.

End Streaming.
Import Streaming.

(* ===================================================================== *)
(** ** The generator view (components/ContentGeneratorView) *)
(* ===================================================================== *)

Module GeneratorView.

Record ViewState := mkView {
  isLoading : bool;
  error : option jsstring;
  generatedContent : option jsstring;
  currentParams : option ContentGenerationParams
}.

(** The calls a handler made on the properties of the view. *)
Record ParentCalls := mkCalls {
  savedHistory : list (ContentGenerationParams * jsstring);
  clearedActiveHistoryItem : nat;
  incrementedGenerationCount : nat
}.

(** [setGeneratedContent(prev => (prev || '') + chunk)]. *)
Definition appendChunk (prev : option jsstring) (chunk : jsstring) : option jsstring :=
  Some ((if truthyOpt prev then interp prev else []) ++ chunk).

Definition handleGenerate
    (generateContentStream : Request -> StreamRun)
    (st : ViewState) (params : ContentGenerationParams) : ViewState * ParentCalls :=
  let '(calls, outcome) := streamGeneratedContent generateContentStream params in
  let shown := fold_left appendChunk calls (Some []) in
  match outcome with
  | Fulfilled finalContent =>
      (mkView false None shown (Some params),
       mkCalls [(params, finalContent)] 1 1)
  | Rejected message =>
      (mkView false
              (Some (if truthy message then message
                     else lit "An unknown error occurred."))
              None (Some params),
       mkCalls [] 0 1)
  end.

(** [handleUpdateFullContent]. *)
Definition handleUpdateFullContent (st : ViewState) (newContent : jsstring)
  : ViewState * ParentCalls :=
  (mkView (isLoading st) (error st) (Some newContent) (currentParams st),
   mkCalls (match currentParams st with
            | Some params => [(params, newContent)]
            | None => []
            end) 0 0).

End GeneratorView.
Import GeneratorView.

(* ===================================================================== *)
(** ** Export (components/ContentOutput, [handleExport]) *)
(* ===================================================================== *)

Module Exporting.

Inductive exportFormat := txt | md | html.

Definition formatName (f : exportFormat) : jsstring :=
  match f with
  | txt => lit "txt"
  | md => lit "md"
  | html => lit "html"
  end.

(** What is handed to the browser: the name of the download, and the type
    and the content of the blob. *)
Record Download := mkDownload {
  filename : jsstring;
  blobType : jsstring;
  fileContent : jsstring
}.

(** The class [[a-z0-9]] under the flag [i] (without the flag [u], a code
    unit outside ASCII is never folded onto an ASCII letter). *)
Definition isAlnum (c : N) : bool :=
  ((48 <=? c) && (c <=? 57) || (65 <=? c) && (c <=? 90)
   || (97 <=? c) && (c <=? 122))%N.

Definition underscore : N := 95.

(** [s.replace(/[^a-z0-9]/gi, '_')]. *)
Definition replaceNonAlnum (s : jsstring) : jsstring :=
  map (fun c => if isAlnum c then c else underscore) s.

(** [toLowerCase] on ASCII code units, the only ones left by
    [replaceNonAlnum]. *)
Definition toLowerCaseAscii (s : jsstring) : jsstring :=
  map (fun c => if (65 <=? c) && (c <=? 90) then c + 32 else c)%N s.

Definition sanitizedProductName (productName : jsstring) : jsstring :=
  toLowerCaseAscii (replaceNonAlnum productName).

(** [s.replace(/pat/g, repl)] for a pattern that is a non-empty literal:
    the occurrences are taken from left to right and do not overlap.
    [skip] counts the code units of the current occurrence still to pass. *)
Fixpoint replaceAllFrom (pat repl : jsstring) (skip : nat) (s : jsstring) : jsstring :=
  match s with
  | [] => []
  | c :: t =>
      match skip with
      | S k => replaceAllFrom pat repl k t
      | O =>
          if startsWith pat s
          then repl ++ replaceAllFrom pat repl (length pat - 1) t
          else c :: replaceAllFrom pat repl 0 t
      end
  end.

Definition replaceAll (pat repl s : jsstring) : jsstring :=
  replaceAllFrom pat repl 0 s.

Definition titleHtml (c : GeneratedContentChunk) : jsstring :=
  lit "<h3>" ++ title c ++ lit "</h3>".

Definition contentHtml (c : GeneratedContentChunk) : jsstring :=
  lit "<p>" ++
  replaceAll [nl] (lit "<br>") (replaceAll [nl; nl] (lit "</p><p>") (content c)) ++
  lit "</p>".

Definition bodyContent (chunks : list GeneratedContentChunk) : jsstring :=
  join ([nl] ++ lit "<hr>" ++ [nl])
       (map (fun c => titleHtml c ++ [nl] ++ contentHtml c) chunks).

Definition htmlDocument (productName : jsstring)
    (chunks : list GeneratedContentChunk) : jsstring :=
  lit "<!DOCTYPE html>" ++ [nl] ++ lit "<html lang=" ++ dq ++ lit "en" ++ dq ++ lit ">" ++ [nl] ++ lit "<head>" ++ [nl] ++ lit "  <meta charset=" ++ dq ++ lit "UTF-8" ++ dq ++ lit ">" ++ [nl] ++ lit "  <meta name=" ++ dq ++ lit "viewport" ++ dq ++ lit " content=" ++ dq ++ lit "width=device-width, initial-scale=1.0" ++ dq ++ lit ">" ++ [nl] ++ lit "  <title>" ++ productName ++ lit "</title>" ++ [nl] ++ lit "  <style>body { font-family: sans-serif; line-height: 1.6; padding: 1em 2em; max-width: 800px; margin: auto; } h3 { color: #4f46e5; } hr { border: 0; border-top: 1px solid #e2e8f0; margin: 2em 0; }</style>" ++ [nl] ++ lit "</head>" ++ [nl] ++ lit "<body>" ++ [nl] ++ bodyContent chunks ++ [nl] ++ lit "</body>" ++ [nl] ++ lit "</html>".

(** [handleExport]: nothing is downloaded without a product name or
    without chunks. *)
Definition handleExport (params : option ContentGenerationParams)
    (chunks : list GeneratedContentChunk) (f : exportFormat) : option Download :=
  match params with
  | None => None
  | Some params =>
      if negb (truthy (productName params)) || (length chunks =? 0) then None
      else
        let filename :=
          sanitizedProductName (productName params) ++ lit "_content." ++ formatName f in
        Some
          match f with
          | txt =>
              mkDownload filename (lit "text/plain;charset=utf-8")
                (join ([nl; nl] ++ lit "---" ++ [nl; nl])
                      (map (fun c => title c ++ [nl; nl] ++ content c) chunks))
          | md =>
              mkDownload filename (lit "text/markdown;charset=utf-8")
                (join [nl; nl]
                      (map (fun c => lit "### " ++ title c ++ [nl; nl] ++ content c) chunks))
          | html =>
              mkDownload filename (lit "text/html;charset=utf-8")
                (htmlDocument (productName params) chunks)
          end
  end.

End Exporting.
Import Exporting.

(* ===================================================================== *)
(** ** Parameters with one property changed *)
(* ===================================================================== *)

Module Updates.

(** [{ ...params, contentLength: value }]. *)
Definition withContentLength (value : option jsstring)
    (params : ContentGenerationParams) : ContentGenerationParams :=
  mkParams (productName params) (contentType params) (country params) (tone params)
           value (starRating params) (seoKeywords params) (companyName params)
           (occasion params) (brandVoice params) (generateAbTest params)
           (generateSocialPost params) (productImage params).

(** [{ ...params, starRating: value }]. *)
Definition withStarRating (value : option jsstring)
    (params : ContentGenerationParams) : ContentGenerationParams :=
  mkParams (productName params) (contentType params) (country params) (tone params)
           (contentLength params) value (seoKeywords params) (companyName params)
           (occasion params) (brandVoice params) (generateAbTest params)
           (generateSocialPost params) (productImage params).

(** [{ ...params, generateSocialPost: value }]. *)
Definition withGenerateSocialPost (value : bool)
    (params : ContentGenerationParams) : ContentGenerationParams :=
  mkParams (productName params) (contentType params) (country params) (tone params)
           (contentLength params) (starRating params) (seoKeywords params)
           (companyName params) (occasion params) (brandVoice params)
           (generateAbTest params) value (productImage params).

(** The body of a chunk list at an identifier, for the chunks that have it. *)
Definition contentsAt (targetId : jsstring) (l : list GeneratedContentChunk)
  : list jsstring :=
  map content (filter (fun c => eqb (id c) targetId) l).

End Updates.
Import Updates.

(* ===================================================================== *)
(** ** Vocabulary of the further properties *)
(* ===================================================================== *)

Module MoreProps.

(** The texts of a stream that are neither missing nor empty, in order. *)
Definition nonEmptyTexts (l : list (option jsstring)) : list jsstring :=
  flat_map (fun text => match text with
                        | Some (c :: t) => [c :: t]
                        | _ => []
                        end) l.

(** A lower-case letter, a digit or an underscore. *)
Definition isFileNameChar (c : N) : bool :=
  ((48 <=? c) && (c <=? 57) || (97 <=? c) && (c <=? 122) || (c =? 95))%N.

End MoreProps.
Import MoreProps.

(* ===================================================================== *)
(** ** Scenarios *)
(* ===================================================================== *)

Module Scenarios.

(** A stream of four chunks, of which one has no text and one an empty
    text. *)
Definition fourChunkRun : StreamRun :=
  mkRun [ Some (lit "### Ad 1: Shine"); None; Some []; Some ([nl; nl] ++ lit "Gold.") ] None.

(** A stream that fails after its first chunk. *)
Definition brokenRun : StreamRun :=
  mkRun [ Some (lit "### Ad 1") ] (Some (ErrorObject (lit "503"))).

Definition idleView : ViewState := mkView false None None None.

Definition descriptionParams : ContentGenerationParams :=
  mkParams (lit "Aurora Necklace") (lit "Product Description") (lit "USA")
           (lit "Professional") (Some (lit "Short")) (Some (lit "5 Stars"))
           None None None None false true None.

Definition reviewParams : ContentGenerationParams :=
  mkParams (lit "Aurora Necklace") (lit "Product Reviews (3)") (lit "USA")
           (lit "Professional") (Some (lit "Short")) (Some (lit "5 Stars"))
           None None None None false true None.

Definition socialParams : ContentGenerationParams :=
  mkParams (lit "Aurora Necklace") (lit "Social Media Post") (lit "USA")
           (lit "Professional") None None None None None None false true None.

(** An introduction followed by the e-mail campaign. *)
Definition threeChunks : list GeneratedContentChunk :=
  mkChunk (lit "chunk-0") (lit "Teaser") (lit "Coming soon.") :: emailChunks.

Definition oneHeading : jsstring :=
  lit "### Subject: Shine on" ++ [nl] ++ lit "Gold is back.".

End Scenarios.
Import Scenarios.

(* ===================================================================== *)
(** ** Facts about JavaScript strings *)
(* ===================================================================== *)

Section StringFacts.

Lemma eqb_eq (s t : jsstring) : eqb s t = true <-> s = t.
Proof.
  revert t; induction s as [|a s IH]; intros [|b t]; simpl;
    try (split; [discriminate | discriminate]); try tauto.
  rewrite andb_true_iff, N.eqb_eq, IH.
  split; [intros [-> ->]; reflexivity | intros [= -> ->]; auto].
Qed.

Lemma eqb_refl (s : jsstring) : eqb s s = true.
Proof. apply eqb_eq; reflexivity. Qed.

Lemma eqb_neq (s t : jsstring) : eqb s t = false <-> s <> t.
Proof.
  rewrite <- eqb_eq. destruct (eqb s t); split; congruence.
Qed.

Lemma startsWith_iff (p s : jsstring) :
  startsWith p s = true <-> exists r, s = p ++ r.
Proof.
  revert s; induction p as [|a p IH]; intros s; simpl.
  - split; [exists s; reflexivity | reflexivity].
  - destruct s as [|b s].
    + split; [discriminate | intros [r Hr]; discriminate].
    + rewrite andb_true_iff, N.eqb_eq, IH. split.
      * intros [-> [r ->]]. exists r; reflexivity.
      * intros [r [= -> ->]]. split; [reflexivity | exists r; reflexivity].
Qed.

Lemma includes_iff (n s : jsstring) :
  includes n s = true <-> Contains s n.
Proof.
  unfold Contains. induction s as [|c s IH]; simpl.
  - rewrite orb_false_r, startsWith_iff. split.
    + intros [r Hr]. exists [], r. exact Hr.
    + intros [a [b H]]. destruct a; [exists b; exact H | discriminate].
  - rewrite orb_true_iff, startsWith_iff, IH. split.
    + intros [[r Hr] | [a [b H]]].
      * exists [], r. exact Hr.
      * exists (c :: a), b. simpl. rewrite H. reflexivity.
    + intros [[|x a] [b H]].
      * left. exists b. exact H.
      * right. injection H as _ H. exists a, b. exact H.
Qed.

Lemma includes_false (n s : jsstring) :
  includes n s = false -> ~ Contains s n.
Proof.
  intros H C. apply includes_iff in C. congruence.
Qed.

Lemma Contains_refl (s : jsstring) : Contains s s.
Proof. exists [], []. rewrite app_nil_r. reflexivity. Qed.

Lemma Contains_app_l (a h n : jsstring) : Contains h n -> Contains (a ++ h) n.
Proof.
  intros [x [y ->]]. exists (a ++ x), y. rewrite app_assoc. reflexivity.
Qed.

Lemma Contains_app_r (b h n : jsstring) : Contains h n -> Contains (h ++ b) n.
Proof.
  intros [x [y ->]]. exists x, (y ++ b). rewrite <- !app_assoc. reflexivity.
Qed.

Lemma Contains_trans (h m n : jsstring) :
  Contains h m -> Contains m n -> Contains h n.
Proof.
  intros [a [b ->]] C. apply Contains_app_l, Contains_app_r, C.
Qed.

(** *** Trimming *)

Lemma trimStart_nil_iff (s : jsstring) : trimStart s = [] <-> allWhite s = true.
Proof.
  induction s as [|c s IH]; simpl; [tauto|].
  destruct (isWhiteSpace c); simpl; [exact IH | split; discriminate].
Qed.

Lemma allWhite_rev (s : jsstring) : allWhite (rev s) = allWhite s.
Proof.
  unfold allWhite. induction s as [|c s IH]; simpl; [reflexivity|].
  rewrite forallb_app, IH. simpl. rewrite andb_true_r, andb_comm. reflexivity.
Qed.

Lemma allWhite_app (s t : jsstring) : allWhite (s ++ t) = allWhite s && allWhite t.
Proof. apply forallb_app. Qed.

Lemma trimStart_allWhite_app (w s : jsstring) :
  allWhite w = true -> trimStart (w ++ s) = trimStart s.
Proof.
  induction w as [|c w IH]; simpl; [reflexivity|].
  rewrite andb_true_iff. intros [-> H]. auto.
Qed.

Lemma trimStart_suffix (s : jsstring) : exists w, s = w ++ trimStart s /\ allWhite w = true.
Proof.
  induction s as [|c s [w [E W]]]; simpl.
  - exists []. auto.
  - destruct (isWhiteSpace c) eqn:Hc.
    + exists (c :: w). simpl. rewrite Hc, W. split; [f_equal; exact E | reflexivity].
    + exists []. auto.
Qed.

Lemma trimStart_head (s : jsstring) c t :
  trimStart s = c :: t -> isWhiteSpace c = false.
Proof.
  induction s as [|a s IH]; simpl; [discriminate|].
  destruct (isWhiteSpace a) eqn:Ha; [exact IH|].
  intros [= <- _]. exact Ha.
Qed.

Lemma trimStart_fixed (s : jsstring) c t :
  s = c :: t -> isWhiteSpace c = false -> trimStart s = s.
Proof. intros -> H. simpl. rewrite H. reflexivity. Qed.

Lemma trimStart_app_keep (s t : jsstring) :
  allWhite s = false -> trimStart (s ++ t) = trimStart s ++ t.
Proof.
  induction s as [|c s IH]; simpl; [discriminate|].
  destruct (isWhiteSpace c); simpl; [exact IH | reflexivity].
Qed.

Lemma trimEnd_nil_iff (s : jsstring) : trimEnd s = [] <-> allWhite s = true.
Proof.
  unfold trimEnd. rewrite <- allWhite_rev, <- trimStart_nil_iff.
  split; intros H.
  - apply (f_equal (@rev N)) in H. rewrite rev_involutive in H. exact H.
  - rewrite H. reflexivity.
Qed.

Lemma trimEnd_last (s t : jsstring) c :
  trimEnd s = t ++ [c] -> isWhiteSpace c = false.
Proof.
  unfold trimEnd. intros H.
  apply (f_equal (@rev N)) in H. rewrite rev_involutive, rev_app_distr in H.
  simpl in H. eapply trimStart_head, H.
Qed.

Lemma trimEnd_allWhite_app (s w : jsstring) :
  allWhite w = true -> trimEnd (s ++ w) = trimEnd s.
Proof.
  intros H. unfold trimEnd. rewrite rev_app_distr, trimStart_allWhite_app.
  - reflexivity.
  - rewrite allWhite_rev. exact H.
Qed.

Lemma trimEnd_fixed (t : jsstring) c :
  isWhiteSpace c = false -> trimEnd (t ++ [c]) = t ++ [c].
Proof.
  intros H. unfold trimEnd. rewrite rev_app_distr. simpl. rewrite H.
  simpl. rewrite rev_involutive. reflexivity.
Qed.

Lemma trimEnd_prefix (s : jsstring) : exists w, s = trimEnd s ++ w /\ allWhite w = true.
Proof.
  unfold trimEnd. destruct (trimStart_suffix (rev s)) as [w [E W]].
  exists (rev w). rewrite allWhite_rev. split; [|exact W].
  rewrite <- rev_app_distr, <- E, rev_involutive. reflexivity.
Qed.

Lemma trimEnd_head (s : jsstring) c t :
  s = c :: t -> isWhiteSpace c = false -> exists t', trimEnd s = c :: t'.
Proof.
  intros -> Hc. destruct (trimEnd_prefix (c :: t)) as [w [E W]].
  destruct (trimEnd (c :: t)) as [|a u] eqn:Ht.
  - simpl in E. subst w. simpl in W. rewrite Hc in W. discriminate.
  - injection E as <- _. exists u. reflexivity.
Qed.

Lemma trim_nil_iff (s : jsstring) : trim s = [] <-> allWhite s = true.
Proof.
  unfold trim. rewrite trimEnd_nil_iff.
  destruct (trimStart_suffix s) as [w [E W]].
  rewrite E at 2. rewrite allWhite_app, W. simpl. tauto.
Qed.

Lemma trim_Trimmed (s : jsstring) : Trimmed (trim s).
Proof.
  unfold trim. split.
  - intros c t H. destruct (trimStart s) as [|a u] eqn:Hs.
    + discriminate.
    + pose proof (trimStart_head _ _ _ Hs) as Ha.
      destruct (trimEnd_head (a :: u) a u eq_refl Ha) as [t' Ht']. rewrite Ht' in H.
      injection H as <- _. exact Ha.
  - intros t c H. eapply trimEnd_last, H.
Qed.

Lemma Trimmed_trim (s : jsstring) : Trimmed s -> trim s = s.
Proof.
  intros [Hh Hl]. unfold trim. destruct s as [|c t]; [reflexivity|].
  rewrite (trimStart_fixed (c :: t) c t eq_refl (Hh _ _ eq_refl)).
  destruct (exists_last (l := c :: t)) as [u [d E]]; [discriminate|].
  rewrite E. apply trimEnd_fixed. eapply Hl, E.
Qed.

Lemma trim_allWhite_app (w s w' : jsstring) :
  allWhite w = true -> allWhite w' = true -> trim (w ++ s ++ w') = trim s.
Proof.
  intros W W'. unfold trim. rewrite trimStart_allWhite_app by exact W.
  destruct (allWhite s) eqn:Hs.
  - assert (H : allWhite (s ++ w') = true) by (rewrite allWhite_app, Hs, W'; reflexivity).
    apply trimStart_nil_iff in H. rewrite H.
    apply trimStart_nil_iff in Hs. rewrite Hs. reflexivity.
  - rewrite trimStart_app_keep by exact Hs. apply trimEnd_allWhite_app, W'.
Qed.

End StringFacts.

(* ===================================================================== *)
(** ** The split before heading markers *)
(* ===================================================================== *)

Section SplitFacts.

Lemma splitBeforeMarker_not_nil (s : jsstring) : splitBeforeMarker s <> [].
Proof.
  destruct s as [|c t]; simpl; [discriminate|].
  destruct (markerAt t); discriminate.
Qed.

Lemma splitBeforeMarker_cons (s : jsstring) :
  splitBeforeMarker s = hd [] (splitBeforeMarker s) :: tl (splitBeforeMarker s).
Proof.
  pose proof (splitBeforeMarker_not_nil s) as H.
  destruct (splitBeforeMarker s); [contradiction | reflexivity].
Qed.

Lemma concat_splitBeforeMarker (s : jsstring) :
  concat (splitBeforeMarker s) = s.
Proof.
  induction s as [|c t IH]; simpl; [reflexivity|].
  destruct (markerAt t); simpl.
  - rewrite IH. reflexivity.
  - rewrite (splitBeforeMarker_cons t) in IH. simpl in IH.
    rewrite IH. reflexivity.
Qed.

(** No piece is empty, unless the whole string is. *)
Lemma splitBeforeMarker_pieces_nonempty (s : jsstring) :
  s <> [] -> Forall (fun p => p <> []) (splitBeforeMarker s).
Proof.
  induction s as [|c t IH]; [congruence|]. intros _. simpl.
  destruct t as [|d t'].
  - simpl. constructor; [discriminate | constructor].
  - assert (IH' := IH ltac:(discriminate)).
    destruct (markerAt (d :: t')).
    + constructor; [discriminate | exact IH'].
    + rewrite (splitBeforeMarker_cons (d :: t')) in IH'.
      inversion IH'; subst. constructor; [discriminate | assumption].
Qed.

Lemma allWhite_concat (l : list jsstring) :
  allWhite (concat l) = true -> Forall (fun p => allWhite p = true) l.
Proof.
  induction l as [|x l IH]; simpl; intros H; constructor.
  - rewrite allWhite_app, andb_true_iff in H. tauto.
  - rewrite allWhite_app, andb_true_iff in H. tauto.
Qed.

Lemma sections_blank (rawContent : jsstring) :
  trim rawContent = [] -> sections rawContent = [].
Proof.
  intros H. apply trim_nil_iff in H.
  rewrite <- (concat_splitBeforeMarker rawContent) in H.
  apply allWhite_concat in H. unfold sections.
  induction H as [|p l Hp _ IH]; simpl; [reflexivity|].
  apply trim_nil_iff in Hp. rewrite Hp. simpl. exact IH.
Qed.

(** The cuts are exactly the interior indices at which the lookahead
    succeeds: a split of [s] into a non-empty prefix and a non-empty suffix
    is a cut of [splitBeforeMarker s] iff the suffix begins with a marker. *)
Lemma splitBeforeMarker_cuts (s a b : jsstring) :
  s = a ++ b -> a <> [] -> b <> [] ->
  (markerAt b = true <->
   exists pre post, splitBeforeMarker s = pre ++ post /\ pre <> [] /\
                    concat pre = a /\ concat post = b).
Proof.
  revert a b. induction s as [|c t IH]; intros a b E Ha Hb.
  - destruct a; [congruence | discriminate].
  - destruct a as [|c' a']; [congruence|]. injection E as <- E.
    pose proof (concat_splitBeforeMarker t) as Hcat.
    pose proof (splitBeforeMarker_cons t) as Hcons.
    assert (Ht : t <> []) by (subst t; destruct a'; [exact Hb | discriminate]).
    pose proof (splitBeforeMarker_pieces_nonempty t Ht) as Hne.
    simpl. destruct a' as [|d a''].
    + simpl in E. subst b. destruct (markerAt t) eqn:Hm.
      * split; [intros _ | reflexivity].
        exists [[c]], (splitBeforeMarker t). simpl.
        repeat split; [discriminate | exact Hcat].
      * split; [discriminate|]. intros [pre [post [Hs [Hpre [Hc _]]]]].
        destruct pre as [|p pre']; [congruence|]. simpl in Hs, Hc.
        injection Hs as Hp _. subst p. simpl in Hc. injection Hc as Hc.
        rewrite Hcons in Hne. inversion Hne; subst.
        destruct (hd [] (splitBeforeMarker t)); [congruence | discriminate].
    + specialize (IH (d :: a'') b E ltac:(discriminate) Hb).
      destruct (markerAt t) eqn:Hm.
      * rewrite IH. split.
        -- intros [pre [post [Hs [Hpre [Hc Hc']]]]].
           exists ([c] :: pre), post. simpl. rewrite Hs, Hc.
           repeat split; [discriminate | exact Hc'].
        -- intros [pre [post [Hs [Hpre [Hc Hc']]]]].
           destruct pre as [|p pre']; [congruence|]. simpl in Hs, Hc.
           injection Hs as Hp Hs. subst p. simpl in Hc. injection Hc as Hc.
           exists pre', post. repeat split; try assumption.
           intros ->. discriminate.
      * rewrite IH. split.
        -- intros [pre [post [Hs [Hpre [Hc Hc']]]]].
           destruct pre as [|p pre']; [congruence|].
           rewrite Hs. simpl. exists ((c :: p) :: pre'), post. simpl.
           simpl in Hc. rewrite Hc.
           repeat split; [discriminate | exact Hc'].
        -- intros [pre [post [Hs [Hpre [Hc Hc']]]]].
           destruct pre as [|p pre']; [congruence|]. simpl in Hs, Hc.
           injection Hs as Hp Hs. subst p. simpl in Hc. injection Hc as Hc.
           exists (hd [] (splitBeforeMarker t) :: pre'), post.
           simpl. rewrite <- Hs.
           repeat split; [exact Hcons | discriminate | exact Hc | exact Hc'].
Qed.

End SplitFacts.

(* ===================================================================== *)
(** ** Splitting a reassembled text *)
(* ===================================================================== *)

Section RoundTripFacts.

(** The lookahead is four code units long; a line break in the first
    three makes it fail, and as the fourth it is the white space looked for,
    whatever follows. *)
Lemma markerAt_before_nl (x rest : jsstring) :
  markerAt (x ++ nl :: rest) = markerAt (x ++ [nl]).
Proof.
  destruct x as [|a [|b [|c [|d x]]]]; simpl; try reflexivity.
  - destruct rest as [|? [|? [|? ?]]]; reflexivity.
  - destruct rest as [|? [|? ?]]; simpl; try reflexivity.
    destruct (a =? hash)%N; reflexivity.
  - destruct rest as [|? ?]; simpl; try reflexivity.
    destruct (a =? hash)%N, (b =? hash)%N; reflexivity.
Qed.

Lemma markerAt_app (x y : jsstring) :
  markerAt x = true -> markerAt (x ++ y) = true.
Proof.
  destruct x as [|a [|b [|c [|d x]]]]; simpl; try discriminate. auto.
Qed.

Lemma markerAt_not_hash (c : N) (s : jsstring) :
  (c =? hash)%N = false -> markerAt (c :: s) = false.
Proof.
  intros H. destruct s as [|? [|? [|? ?]]]; simpl; try reflexivity.
  rewrite H. reflexivity.
Qed.

Lemma markerFree_not_hash (c : N) (s : jsstring) :
  (c =? hash)%N = false -> markerFree (c :: s) = markerFree s.
Proof.
  intros H. change (markerFree (c :: s)) with (negb (markerAt (c :: s)) && markerFree s).
  rewrite markerAt_not_hash by exact H. reflexivity.
Qed.

Lemma markerFree_before_nl (x rest : jsstring) :
  markerFree (x ++ nl :: rest) = markerFree (x ++ [nl]) && markerFree (nl :: rest).
Proof.
  induction x as [|a x IH].
  - simpl app. rewrite (markerFree_not_hash nl []) by reflexivity. reflexivity.
  - change (markerFree ((a :: x) ++ nl :: rest))
      with (negb (markerAt ((a :: x) ++ nl :: rest)) && markerFree (x ++ nl :: rest)).
    change (markerFree ((a :: x) ++ [nl]))
      with (negb (markerAt ((a :: x) ++ [nl])) && markerFree (x ++ [nl])).
    rewrite markerAt_before_nl, IH, andb_assoc. reflexivity.
Qed.

Lemma markerFree_prefix (x y : jsstring) :
  markerFree (x ++ y) = true -> markerFree x = true.
Proof.
  induction x as [|a x IH]; [reflexivity|].
  change (markerFree ((a :: x) ++ y))
    with (negb (markerAt ((a :: x) ++ y)) && markerFree (x ++ y)).
  change (markerFree (a :: x)) with (negb (markerAt (a :: x)) && markerFree x).
  rewrite !andb_true_iff, !negb_true_iff. intros [H1 H2]. split; [|auto].
  destruct (markerAt (a :: x)) eqn:E; [|reflexivity].
  rewrite (markerAt_app _ y E) in H1. discriminate.
Qed.

(** Inside [u], followed by a line break, the lookahead sees what it sees
    in [u ++ [nl]]. *)
Lemma cutFree_before_nl (x rest : jsstring) :
  markerFree (x ++ [nl]) = true -> cutFree (x ++ [nl]) rest = true.
Proof.
  induction x as [|a x IH]; intros H.
  - simpl app. change (negb (markerAt (nl :: rest)) && true = true).
    rewrite markerAt_not_hash by reflexivity. reflexivity.
  - change (markerFree ((a :: x) ++ [nl]))
      with (negb (markerAt ((a :: x) ++ [nl])) && markerFree (x ++ [nl])) in H.
    apply andb_true_iff in H. destruct H as [H1 H2].
    change (negb (markerAt (((a :: x) ++ [nl]) ++ rest)) && cutFree (x ++ [nl]) rest = true).
    rewrite <- app_assoc. simpl app at 2.
    rewrite markerAt_before_nl, H1, IH by exact H2. reflexivity.
Qed.

Lemma cutFree_nil_r (u : jsstring) : cutFree u [] = markerFree u.
Proof.
  induction u as [|a u IH]; [reflexivity|].
  change (negb (markerAt ((a :: u) ++ [])) && cutFree u [] =
          negb (markerAt (a :: u)) && markerFree u).
  rewrite app_nil_r, IH. reflexivity.
Qed.

(** A stretch without markers after its first code unit ends up in one
    piece. *)
Lemma splitBeforeMarker_app (c : N) (u v : jsstring) :
  cutFree u v = true ->
  splitBeforeMarker (c :: u ++ v) =
  if markerAt v then (c :: u) :: splitBeforeMarker v
  else (c :: u ++ hd [] (splitBeforeMarker v)) :: tl (splitBeforeMarker v).
Proof.
  revert c. induction u as [|d u IH]; intros c H.
  - reflexivity.
  - change (cutFree (d :: u) v)
      with (negb (markerAt ((d :: u) ++ v)) && cutFree u v) in H.
    apply andb_true_iff in H. destruct H as [H1 H2].
    apply negb_true_iff in H1.
    change (splitBeforeMarker (c :: (d :: u) ++ v))
      with (let r := splitBeforeMarker ((d :: u) ++ v) in
            if markerAt ((d :: u) ++ v) then [c] :: r else (c :: hd [] r) :: tl r).
    cbv zeta. rewrite H1. simpl app. rewrite (IH d H2).
    destruct (markerAt v); reflexivity.
Qed.

End RoundTripFacts.

Section ReassembledText.

Ltac norm_app :=
  repeat (rewrite <- app_assoc || rewrite <- app_comm_cons); simpl app;
  try reflexivity.

Lemma renderChunk_unfold (c : GeneratedContentChunk) :
  renderChunk c = hash :: hash :: hash :: space :: title c ++ nl :: nl :: content c.
Proof. reflexivity. Qed.

Lemma markerFree_heading_tail (z : jsstring) :
  markerFree (hash :: hash :: space :: z) = markerFree z.
Proof.
  change (negb (markerAt (hash :: hash :: space :: z)) &&
          (negb (markerAt (hash :: space :: z)) && markerFree (space :: z)) =
          markerFree z).
  rewrite (markerFree_not_hash space z) by reflexivity.
  destruct z as [|a [|b z]]; reflexivity.
Qed.

Lemma markerFree_nl (z : jsstring) : markerFree (nl :: z) = markerFree z.
Proof. apply markerFree_not_hash. reflexivity. Qed.

(** After its first code unit, a rendered chunk followed by the separator
    has no index at which the lookahead succeeds, whatever comes next. *)
Lemma cutFree_rendered_sep (c : GeneratedContentChunk) (v : jsstring) :
  WellFormedChunk c ->
  cutFree (hash :: hash :: space :: title c ++ nl :: nl :: content c ++ [nl; nl]) v = true.
Proof.
  intros [[_ [_ [_ Ht]]] [_ [_ Hb]]].
  replace (hash :: hash :: space :: title c ++ nl :: nl :: content c ++ [nl; nl])
    with ((hash :: hash :: space :: title c ++ nl :: nl :: content c ++ [nl]) ++ [nl]).
  - apply cutFree_before_nl.
    replace ((hash :: hash :: space :: title c ++ nl :: nl :: content c ++ [nl]) ++ [nl])
      with (hash :: hash :: space :: title c ++ nl :: nl :: content c ++ [nl; nl]).
    + rewrite markerFree_heading_tail, markerFree_before_nl, Ht, !markerFree_nl.
      rewrite markerFree_before_nl, Hb. reflexivity.
    + norm_app.
  - norm_app.
Qed.

Lemma cutFree_rendered_last (c : GeneratedContentChunk) :
  WellFormedChunk c ->
  cutFree (hash :: hash :: space :: title c ++ nl :: nl :: content c) [] = true.
Proof.
  intros [[_ [_ [_ Ht]]] [_ [_ Hb]]].
  rewrite cutFree_nil_r, markerFree_heading_tail, markerFree_before_nl, Ht.
  rewrite !markerFree_nl. apply (markerFree_prefix _ [nl]), Hb.
Qed.

Lemma markerAt_reassembled (c : GeneratedContentChunk) (C : list GeneratedContentChunk) :
  markerAt (updateFullContentFromChunks (c :: C)) = true.
Proof.
  unfold updateFullContentFromChunks. simpl map.
  destruct (map renderChunk C); reflexivity.
Qed.

Lemma updateFullContentFromChunks_cons (c d : GeneratedContentChunk)
    (C : list GeneratedContentChunk) :
  updateFullContentFromChunks (c :: d :: C) =
  renderChunk c ++ [nl; nl] ++ updateFullContentFromChunks (d :: C).
Proof. reflexivity. Qed.

Lemma splitBeforeMarker_reassembled (C : list GeneratedContentChunk) :
  C <> [] -> Forall WellFormedChunk C ->
  splitBeforeMarker (updateFullContentFromChunks C) = renderedSections C.
Proof.
  induction C as [|c C IH]; [congruence|]. intros _ Hwf.
  inversion Hwf as [|? ? Hc HC]; subst.
  destruct C as [|d C].
  - change (updateFullContentFromChunks [c]) with (renderChunk c).
    rewrite renderChunk_unfold.
    replace (hash :: hash :: hash :: space :: title c ++ nl :: nl :: content c)
      with (hash :: (hash :: hash :: space :: title c ++ nl :: nl :: content c) ++ [])
      by (rewrite app_nil_r; reflexivity).
    rewrite splitBeforeMarker_app by (apply cutFree_rendered_last, Hc).
    simpl. rewrite !app_nil_r. reflexivity.
  - rewrite updateFullContentFromChunks_cons, renderChunk_unfold.
    replace ((hash :: hash :: hash :: space :: title c ++ nl :: nl :: content c)
             ++ [nl; nl] ++ updateFullContentFromChunks (d :: C))
      with (hash :: (hash :: hash :: space :: title c ++ nl :: nl :: content c ++ [nl; nl])
                 ++ updateFullContentFromChunks (d :: C))
      by norm_app.
    rewrite splitBeforeMarker_app by (apply cutFree_rendered_sep, Hc).
    rewrite markerAt_reassembled, IH by (discriminate || exact HC).
    change (renderedSections (c :: d :: C))
      with ((renderChunk c ++ [nl; nl]) :: renderedSections (d :: C)).
    rewrite renderChunk_unfold. f_equal. norm_app.
Qed.

Lemma renderedSections_headed (C : list GeneratedContentChunk) :
  Forall (fun p => exists t, p = hash :: t) (renderedSections C).
Proof.
  induction C as [|c C IH]; [constructor|].
  destruct C as [|d C].
  - constructor; [|constructor]. rewrite renderChunk_unfold. eexists; reflexivity.
  - change (renderedSections (c :: d :: C))
      with ((renderChunk c ++ [nl; nl]) :: renderedSections (d :: C)).
    constructor; [|exact IH]. rewrite renderChunk_unfold. eexists; reflexivity.
Qed.

Lemma renderedSections_length (C : list GeneratedContentChunk) :
  length (renderedSections C) = length C.
Proof.
  induction C as [|c C IH]; [reflexivity|].
  destruct C as [|d C]; [reflexivity|].
  change (renderedSections (c :: d :: C))
    with ((renderChunk c ++ [nl; nl]) :: renderedSections (d :: C)).
  simpl length in *. rewrite IH. reflexivity.
Qed.

Lemma sections_reassembled (C : list GeneratedContentChunk) :
  C <> [] -> Forall WellFormedChunk C ->
  sections (updateFullContentFromChunks C) = renderedSections C.
Proof.
  intros Hne Hwf. unfold sections.
  rewrite splitBeforeMarker_reassembled by assumption.
  pose proof (renderedSections_headed C) as H.
  induction H as [|p l [t ->] _ IH]; [reflexivity|].
  simpl filter.
  destruct (eqb (trim (hash :: t)) []) eqn:E.
  - apply eqb_eq, trim_nil_iff in E. discriminate.
  - simpl. rewrite IH. reflexivity.
Qed.

End ReassembledText.

(* ===================================================================== *)
(** ** Lines of a section *)
(* ===================================================================== *)

Section LineFacts.

Lemma splitChar_cons (sep : N) (s : jsstring) :
  splitChar sep s = hd [] (splitChar sep s) :: tl (splitChar sep s).
Proof.
  destruct s as [|c t]; simpl; [reflexivity|].
  destruct (c =? sep)%N; reflexivity.
Qed.

Lemma splitChar_first_line (sep : N) (x rest : jsstring) :
  ~ In sep x ->
  splitChar sep (x ++ sep :: rest) = x :: splitChar sep rest.
Proof.
  induction x as [|a x IH]; intros H; simpl.
  - rewrite N.eqb_refl. reflexivity.
  - destruct (a =? sep)%N eqn:E.
    + apply N.eqb_eq in E. subst a. exfalso. apply H. left. reflexivity.
    + rewrite IH; [reflexivity|]. intros Hin. apply H. right. exact Hin.
Qed.

Lemma join_cons (sep x : jsstring) (r : list jsstring) :
  r <> [] -> join sep (x :: r) = x ++ sep ++ join sep r.
Proof. destruct r; [congruence | reflexivity]. Qed.

Lemma join_splitChar (sep : N) (s : jsstring) :
  join [sep] (splitChar sep s) = s.
Proof.
  induction s as [|c t IH]; [reflexivity|]. simpl splitChar.
  rewrite (splitChar_cons sep t) in IH |- *. simpl hd. simpl tl.
  destruct (c =? sep)%N eqn:E.
  - apply N.eqb_eq in E. subst c. rewrite join_cons by discriminate.
    rewrite IH. reflexivity.
  - destruct (tl (splitChar sep t)) as [|y r].
    + simpl in IH |- *. rewrite IH. reflexivity.
    + rewrite join_cons in IH |- * by discriminate.
      rewrite <- app_comm_cons. f_equal. exact IH.
Qed.

Lemma rendered_Trimmed (c : GeneratedContentChunk) :
  WellFormedChunk c -> Trimmed (renderChunk c).
Proof.
  intros [_ [Hne [[_ Hl] _]]]. rewrite renderChunk_unfold. split.
  - intros a t [= <- _]. reflexivity.
  - intros t a E. destruct (exists_last Hne) as [b' [y Hy]].
    rewrite Hy in E.
    replace (hash :: hash :: hash :: space :: title c ++ nl :: nl :: b' ++ [y])
      with ((hash :: hash :: hash :: space :: title c ++ nl :: nl :: b') ++ [y]) in E
      by (repeat (rewrite <- app_assoc || rewrite <- app_comm_cons); reflexivity).
    apply app_inj_tail in E. destruct E as [_ <-]. eapply Hl, Hy.
Qed.

(** A rendered chunk, with or without the separator after it, is parsed
    back into its title and body. *)
Lemma sectionToChunk_rendered (c : GeneratedContentChunk) (w : jsstring) (index : nat) :
  WellFormedChunk c -> allWhite w = true ->
  sectionToChunk (renderChunk c ++ w) index =
  mkChunk (chunkId index) (title c) (content c).
Proof.
  intros Hwf Hw. pose proof (rendered_Trimmed c Hwf) as Htr.
  destruct Hwf as [[_ [Ht [Hnl _]]] [_ [Hb _]]].
  unfold sectionToChunk.
  replace (trim (renderChunk c ++ w)) with (renderChunk c).
  2:{ rewrite <- (Trimmed_trim _ Htr) at 1. symmetry.
      apply (trim_allWhite_app [] (renderChunk c) w); [reflexivity | exact Hw]. }
  replace (splitChar nl (renderChunk c))
    with ((hash :: hash :: hash :: space :: title c) :: [] :: splitChar nl (content c)).
  2:{ rewrite renderChunk_unfold.
      replace (hash :: hash :: hash :: space :: title c ++ nl :: nl :: content c)
        with ((hash :: hash :: hash :: space :: title c) ++ nl :: nl :: content c)
        by reflexivity.
      rewrite splitChar_first_line.
      - change (nl :: content c) with ([] ++ nl :: content c).
        rewrite (splitChar_first_line nl [] (content c)) by (intros []). reflexivity.
      - intros [H|[H|[H|[H|H]]]]; try discriminate. contradiction. }
  simpl hd. simpl tl. f_equal.
  - change (replaceFirst (lit "###") [] (hash :: hash :: hash :: space :: title c))
      with (space :: title c).
    rewrite <- (Trimmed_trim _ Ht) at 2.
    rewrite <- (app_nil_r (title c)) at 1.
    apply (trim_allWhite_app [space] (title c) []); reflexivity.
  - rewrite join_cons by (rewrite splitChar_cons; discriminate).
    rewrite join_splitChar.
    rewrite <- (Trimmed_trim _ Hb) at 2.
    rewrite <- (app_nil_r (content c)) at 1.
    apply (trim_allWhite_app [nl] (content c) []); reflexivity.
Qed.

Lemma mapiFrom_cons {A B} (f : A -> nat -> B) (k : nat) (x : A) (l : list A) :
  mapiFrom f k (x :: l) = f x k :: mapiFrom f (S k) l.
Proof. reflexivity. Qed.

Lemma mapiFrom_rendered (C : list GeneratedContentChunk) (k : nat) :
  Forall WellFormedChunk C ->
  sameText (mapiFrom sectionToChunk k (renderedSections C)) C.
Proof.
  unfold sameText. revert k. induction C as [|c C IH]; intros k Hwf; [reflexivity|].
  inversion Hwf as [|? ? Hc HC]; subst.
  destruct C as [|d C].
  - change (renderedSections [c]) with [renderChunk c]. rewrite mapiFrom_cons.
    rewrite <- (app_nil_r (renderChunk c)).
    rewrite sectionToChunk_rendered by (assumption || reflexivity). reflexivity.
  - change (renderedSections (c :: d :: C))
      with ((renderChunk c ++ [nl; nl]) :: renderedSections (d :: C)).
    rewrite mapiFrom_cons, sectionToChunk_rendered by (assumption || reflexivity).
    rewrite !map_cons, (IH (S k) HC). reflexivity.
Qed.

Lemma sameText_reassembled (C D : list GeneratedContentChunk) :
  sameText C D -> updateFullContentFromChunks C = updateFullContentFromChunks D.
Proof.
  unfold sameText, updateFullContentFromChunks. intros H. f_equal.
  revert D H. induction C as [|c C IH]; intros [|d D] H; try discriminate; [reflexivity|].
  simpl in H. injection H as Ht Hc H. simpl. unfold renderChunk at 1 3.
  rewrite Ht, Hc, (IH D H). reflexivity.
Qed.

(** The round trip, for a list of at least two well-formed chunks. *)
Lemma parseContent_reassembled (C : list GeneratedContentChunk) :
  length C <> 1 -> Forall WellFormedChunk C ->
  sameText (parseContent (updateFullContentFromChunks C)) C.
Proof.
  intros Hlen Hwf. destruct C as [|c [|d C]]; [reflexivity | simpl in Hlen; congruence |].
  unfold parseContent.
  assert (Ht : truthy (updateFullContentFromChunks (c :: d :: C)) = true) by reflexivity.
  rewrite Ht. simpl negb. cbv iota.
  rewrite sections_reassembled by (discriminate || assumption).
  rewrite renderedSections_length.
  change (length (c :: d :: C) <=? 1) with false. simpl andb. cbv iota.
  apply mapiFrom_rendered, Hwf.
Qed.

End LineFacts.

(* ===================================================================== *)
(** ** Chunk identifiers *)
(* ===================================================================== *)

Section IdFacts.

Lemma lit_inj (s t : string) : lit s = lit t -> s = t.
Proof.
  unfold lit. intros H.
  rewrite <- (string_of_list_ascii_of_string s), <- (string_of_list_ascii_of_string t).
  f_equal. revert H.
  generalize (list_ascii_of_string s) (list_ascii_of_string t).
  induction l as [|a l IH]; intros [|b l'] H; try discriminate; [reflexivity|].
  simpl in H. injection H as Hab H. f_equal; [|apply IH, H].
  rewrite <- (ascii_N_embedding a), <- (ascii_N_embedding b), Hab. reflexivity.
Qed.

Lemma numToString_inj (i j : nat) : numToString i = numToString j -> i = j.
Proof.
  unfold numToString. intros H. apply lit_inj in H.
  apply (f_equal NilEmpty.uint_of_string) in H.
  rewrite !NilEmpty.usu in H. injection H as H.
  apply (f_equal Nat.of_uint) in H.
  rewrite !DecimalNat.Unsigned.of_to in H. exact H.
Qed.

Lemma chunkId_inj (i j : nat) : chunkId i = chunkId j -> i = j.
Proof.
  unfold chunkId. intros H. apply app_inv_head in H. apply numToString_inj, H.
Qed.

Lemma In_mapiFrom {A B} (f : A -> nat -> B) (k : nat) (l : list A) (y : B) :
  In y (mapiFrom f k l) ->
  exists i x, nth_error l i = Some x /\ y = f x (k + i).
Proof.
  revert k. induction l as [|a l IH]; intros k H; [contradiction|].
  simpl in H. destruct H as [<- | H].
  - exists 0, a. rewrite Nat.add_0_r. split; reflexivity.
  - destruct (IH (S k) H) as [i [x [Hn ->]]].
    exists (S i), x. split; [exact Hn | f_equal; lia].
Qed.

Lemma parseContent_cases (rawContent : jsstring) :
  parseContent rawContent = [] \/
  parseContent rawContent = [mkChunk (chunkId 0) defaultTitle (trim rawContent)] \/
  parseContent rawContent = mapi sectionToChunk (sections rawContent).
Proof.
  unfold parseContent. destruct (negb (truthy rawContent)); [left; reflexivity|].
  destruct ((length (sections rawContent) <=? 1) && truthy (trim rawContent));
    [right; left | right; right]; reflexivity.
Qed.

(** Within one parse, a chunk is determined by its identifier. *)
Lemma parseContent_id_unique (rawContent : jsstring) (c d : GeneratedContentChunk) :
  In c (parseContent rawContent) -> In d (parseContent rawContent) ->
  id c = id d -> c = d.
Proof.
  destruct (parseContent_cases rawContent) as [E | [E | E]]; rewrite E.
  - contradiction.
  - intros [<- | []] [<- | []] _. reflexivity.
  - unfold mapi. intros Hc Hd Hid.
    apply In_mapiFrom in Hc, Hd.
    destruct Hc as [i [x [Hi ->]]], Hd as [j [y [Hj ->]]].
    simpl in Hid. apply chunkId_inj in Hid. simpl in Hid. subst j.
    rewrite Hi in Hj. injection Hj as ->. reflexivity.
Qed.

Lemma setContent_noop (l : list GeneratedContentChunk) (c : GeneratedContentChunk) :
  (forall d, In d l -> id d = id c -> d = c) ->
  map (setContent (id c) (content c)) l = l.
Proof.
  intros H. rewrite <- (map_id l) at 2. apply map_ext_in. intros d Hd.
  unfold setContent. destruct (eqb (id d) (id c)) eqn:E; [|reflexivity].
  apply eqb_eq in E. rewrite (H d Hd E). destruct c; reflexivity.
Qed.

(** Every text field of every chunk of a parse is trimmed. *)
Lemma parseContent_trimmed (rawContent : jsstring) (c : GeneratedContentChunk) :
  In c (parseContent rawContent) -> Trimmed (title c) /\ Trimmed (content c).
Proof.
  destruct (parseContent_cases rawContent) as [E | [E | E]]; rewrite E.
  - contradiction.
  - intros [<- | []]. simpl. split; [|apply trim_Trimmed].
    rewrite <- (eq_refl : trim defaultTitle = defaultTitle). apply trim_Trimmed.
  - unfold mapi. intros Hc. apply In_mapiFrom in Hc.
    destruct Hc as [i [x [_ ->]]]. simpl. split; apply trim_Trimmed.
Qed.

End IdFacts.

(* ===================================================================== *)
(** ** The response chunker: properties *)
(* ===================================================================== *)

(** C9. Heading split correctness: [parseContent] of
    ["### A\nbody1\n### B\nbody2"] is exactly two chunks, in order: title
    ["A"] with body ["body1"], then title ["B"] with body ["body2"] (with
    the identifiers [chunk-0] and [chunk-1]). *)
Theorem heading_split_correct :
  parseContent twoHeadings =
  [ mkChunk (lit "chunk-0") (lit "A") (lit "body1");
    mkChunk (lit "chunk-1") (lit "B") (lit "body2") ].
Proof. vm_compute. reflexivity. Qed.

(** C8. Single-segment fallback: [parseContent] of an empty or
    white-space-only string is the empty list; for an input that is not
    empty after trimming and whose split leaves at most one segment, it is
    exactly one chunk, titled ["Generated Content"], whose body is the whole
    trimmed input. *)
Theorem single_segment_fallback (rawContent : jsstring) :
  (allWhite rawContent = true -> parseContent rawContent = []) /\
  (allWhite rawContent = false -> length (sections rawContent) <= 1 ->
   parseContent rawContent =
   [mkChunk (lit "chunk-0") (lit "Generated Content") (trim rawContent)]).
Proof.
  split.
  - intros H. unfold parseContent.
    destruct (negb (truthy rawContent)); [reflexivity|].
    apply trim_nil_iff in H. rewrite (sections_blank _ H), H. reflexivity.
  - intros H Hlen. unfold parseContent.
    destruct rawContent as [|c t]; [discriminate|]. simpl negb. cbv iota.
    apply Nat.leb_le in Hlen. rewrite Hlen.
    destruct (trim (c :: t)) eqn:E.
    + apply trim_nil_iff in E. congruence.
    + reflexivity.
Qed.

Lemma single_segment_fallback_witness :
  parseContent [space; nl] = [] /\
  parseContent (lit "  just plain text, no heading ") =
  [mkChunk (lit "chunk-0") (lit "Generated Content")
           (lit "just plain text, no heading")].
Proof.
  split.
  - apply (proj1 (single_segment_fallback [space; nl])). reflexivity.
  - apply (proj2 (single_segment_fallback (lit "  just plain text, no heading "))).
    + reflexivity.
    + vm_compute. lia.
Defined.

Lemma Trimmed_of_trim (s : jsstring) : trim s = s -> Trimmed s.
Proof. intros <-. apply trim_Trimmed. Qed.

Lemma sameText_length (C D : list GeneratedContentChunk) :
  sameText C D -> length C = length D.
Proof.
  unfold sameText. intros H. apply (f_equal (@length _)) in H.
  rewrite !length_map in H. exact H.
Qed.

(** C1, as stated, fails: a list of one chunk with a non-empty title and
    body is reassembled to a text with a single segment, which the chunker
    turns into the fallback chunk titled ["Generated Content"]. *)
Lemma round_trip_one_chunk_fails :
  Forall (fun c => title c <> [] /\ content c <> []) oneChunk /\
  parseContent (updateFullContentFromChunks oneChunk) =
    [ mkChunk (lit "chunk-0") (lit "Generated Content")
              (lit "### A" ++ [nl; nl] ++ lit "b") ] /\
  ~ sameText (parseContent (updateFullContentFromChunks oneChunk)) oneChunk.
Proof.
  split; [|split].
  - repeat constructor; discriminate.
  - vm_compute. reflexivity.
  - vm_compute. discriminate.
Qed.

(** C1 (amended). Round trip: for every list C of chunks that is empty or
    has at least two chunks, whose titles and bodies are non-empty, carry no
    surrounding white space and no ["###"] followed by white space (a line
    break after the text included), and whose titles are on one line,
    [parseContent] of the reassembled text has the length, the order, the
    titles and the bodies of C. *)
Theorem round_trip_well_formed (C : list GeneratedContentChunk) :
  length C <> 1 -> Forall WellFormedChunk C ->
  length (parseContent (updateFullContentFromChunks C)) = length C /\
  sameText (parseContent (updateFullContentFromChunks C)) C.
Proof.
  intros Hlen Hwf.
  pose proof (parseContent_reassembled C Hlen Hwf) as H.
  split; [apply sameText_length, H | exact H].
Qed.

Lemma emailChunks_well_formed : Forall WellFormedChunk emailChunks.
Proof.
  repeat constructor; try discriminate;
    try (apply Trimmed_of_trim; vm_compute; reflexivity).
  simpl. intros H. repeat (destruct H as [H|H]; [discriminate|]). exact H.
  simpl. intros H. repeat (destruct H as [H|H]; [discriminate|]). exact H.
Defined.

Lemma round_trip_well_formed_witness :
  length (parseContent (updateFullContentFromChunks emailChunks)) = length emailChunks /\
  sameText (parseContent (updateFullContentFromChunks emailChunks)) emailChunks.
Proof.
  apply (round_trip_well_formed emailChunks).
  - simpl. lia.
  - exact emailChunks_well_formed.
Defined.

(** C4, as stated, fails: a ["###"] followed by white space in the middle
    of a line does create a split, where the split at heading lines of the
    specification leaves the text in one segment. *)
Lemma mid_line_marker_splits :
  sections midLineMarker = [ lit "### A" ++ [nl] ++ lit "foo "; lit "### B" ] /\
  splitAtHeadingLines midLineMarker = [ midLineMarker ] /\
  splitBeforeMarker midLineMarker <> splitAtHeadingLines midLineMarker.
Proof.
  split; [|split].
  - vm_compute. reflexivity.
  - vm_compute. reflexivity.
  - vm_compute. discriminate.
Qed.

(** C4 (amended). Split positions: [parseContent] cuts its input exactly
    at the indices, other than the first, at which the three characters
    ["###"] are followed by a white-space character, wherever in a line they
    stand; the segments kept are the pieces that are not empty or
    white-space-only. *)
Theorem split_positions (rawContent : jsstring) :
  (forall a b, rawContent = a ++ b -> a <> [] -> b <> [] ->
     (markerAt b = true <->
      exists pre post, splitBeforeMarker rawContent = pre ++ post /\ pre <> [] /\
                       concat pre = a /\ concat post = b)) /\
  (forall p, In p (sections rawContent) <->
             In p (splitBeforeMarker rawContent) /\ allWhite p = false).
Proof.
  split.
  - intros a b. apply splitBeforeMarker_cuts.
  - intros p. unfold sections. rewrite filter_In.
    destruct (allWhite p) eqn:E.
    + apply trim_nil_iff in E. rewrite E. simpl. intuition discriminate.
    + destruct (eqb (trim p) []) eqn:E'.
      * apply eqb_eq, trim_nil_iff in E'. congruence.
      * simpl. tauto.
Qed.

Lemma split_positions_witness :
  exists pre post, splitBeforeMarker midLineMarker = pre ++ post /\ pre <> [] /\
    concat pre = lit "### A" ++ [nl] ++ lit "foo " /\ concat post = lit "### B".
Proof.
  apply (proj1 (split_positions midLineMarker)
               (lit "### A" ++ [nl] ++ lit "foo ") (lit "### B")).
  - reflexivity.
  - discriminate.
  - discriminate.
  - reflexivity.
Defined.

(** C6, as stated, fails: a text without heading is shown as the fallback
    chunk, and editing that chunk to its own body rewrites the text with a
    heading. *)
Lemma noop_edit_changes_plain_text :
  parseContent plainText = [ mkChunk (lit "chunk-0") (lit "Generated Content") (lit "hello") ] /\
  snd (handleUpdateChunk (displayed plainText) (lit "chunk-0") (lit "hello")) =
    Some (lit "### Generated Content" ++ [nl; nl] ++ lit "hello") /\
  snd (handleUpdateChunk (displayed plainText) (lit "chunk-0") (lit "hello")) <>
    Some plainText.
Proof.
  split; [|split].
  - vm_compute. reflexivity.
  - vm_compute. reflexivity.
  - vm_compute. discriminate.
Qed.

(** C6 (amended). No-op edit: for every raw text shown as a chunk list,
    editing one chunk's body to its current value leaves the chunk list as
    it is and hands on the reassembly of that list; this is the raw text
    from before the edit whenever that text is itself the reassembly of a
    list of well-formed chunks that is empty or has at least two chunks. *)
Theorem noop_edit_reassembles (rawContent : jsstring) (c : GeneratedContentChunk) :
  In c (parseContent rawContent) ->
  handleUpdateChunk (displayed rawContent) (id c) (content c) =
    (displayed rawContent,
     Some (updateFullContentFromChunks (parseContent rawContent))) /\
  (forall C, length C <> 1 -> Forall WellFormedChunk C ->
     rawContent = updateFullContentFromChunks C ->
     snd (handleUpdateChunk (displayed rawContent) (id c) (content c)) =
       Some rawContent).
Proof.
  intros Hc.
  assert (E : handleUpdateChunk (displayed rawContent) (id c) (content c) =
              (displayed rawContent,
               Some (updateFullContentFromChunks (parseContent rawContent)))).
  { unfold handleUpdateChunk, displayed. simpl chunks. simpl regeneratingChunkId.
    rewrite setContent_noop; [reflexivity|].
    intros d Hd Hid. apply (parseContent_id_unique rawContent); assumption. }
  split; [exact E|].
  intros C Hlen Hwf HC. rewrite E. simpl. f_equal. rewrite HC at 2.
  apply sameText_reassembled. rewrite HC. apply parseContent_reassembled; assumption.
Qed.

Lemma noop_edit_reassembles_witness :
  snd (handleUpdateChunk (displayed (updateFullContentFromChunks emailChunks))
         (lit "chunk-1") (lit "Shop the Aurora line")) =
  Some (updateFullContentFromChunks emailChunks).
Proof.
  apply (proj2 (noop_edit_reassembles (updateFullContentFromChunks emailChunks)
                  (mkChunk (lit "chunk-1") (lit "CTA Button: Shop now")
                           (lit "Shop the Aurora line"))
                  ltac:(vm_compute; right; left; reflexivity))
               emailChunks).
  - simpl. lia.
  - exact emailChunks_well_formed.
  - reflexivity.
Defined.

(* ===================================================================== *)
(** ** Single-chunk regeneration: properties *)
(* ===================================================================== *)

Lemma regenerate_fulfilled_trimmed generateContent params chunkToRegen newContent :
  regenerateContentChunk generateContent params chunkToRegen = Fulfilled newContent ->
  Trimmed newContent.
Proof.
  unfold regenerateContentChunk.
  destruct (generateContent _) as [e | text]; [discriminate|].
  destruct (negb (truthyOpt text)); [discriminate|].
  intros [= <-]. apply trim_Trimmed.
Qed.

(** C5. Empty regeneration response: when the one-shot call resolves with a
    missing or an empty text, [regenerateContentChunk] rejects, with the
    message of the empty-response error and not with that of any other
    failure of the call, and [handleRegenerateChunk] leaves every chunk as
    it was and hands on no new raw text. *)
Theorem empty_response_is_failure
    (generateContent : Request -> apiOutcome) (params : ContentGenerationParams)
    (chunkToRegen : GeneratedContentChunk) (st : OutputState) :
  generateContent (mkRequest (productImage params)
                             (buildPrompt params (Some chunkToRegen))) = Resolves None \/
  generateContent (mkRequest (productImage params)
                             (buildPrompt params (Some chunkToRegen))) = Resolves (Some []) ->
  regenerateContentChunk generateContent params chunkToRegen =
    Rejected (lit "Failed to regenerate content: Received an empty response from the AI.") /\
  (forall e, e <> ErrorObject emptyResponseMessage ->
     regenerateContentChunk (fun _ => Rejects e) params chunkToRegen <>
     regenerateContentChunk generateContent params chunkToRegen) /\
  handleRegenerateChunk generateContent (Some params) st chunkToRegen =
    (mkState (chunks st) None, None).
Proof.
  intros H.
  assert (E : regenerateContentChunk generateContent params chunkToRegen =
              Rejected (lit "Failed to regenerate content: Received an empty response from the AI.")).
  { unfold regenerateContentChunk. destruct H as [-> | ->]; reflexivity. }
  split; [exact E | split].
  - intros e He. rewrite E. unfold regenerateContentChunk.
    destruct e as [message|]; simpl rethrow.
    + intros [= Hm]. apply He. f_equal. exact Hm.
    + discriminate.
  - unfold handleRegenerateChunk. rewrite E. reflexivity.
Qed.

Lemma empty_response_is_failure_witness :
  handleRegenerateChunk (fun _ => Resolves (Some [])) (Some adCopyParams)
    (mkState [chunkA] None) chunkA = (mkState [chunkA] None, None).
Proof.
  apply (proj2 (proj2 (empty_response_is_failure
           (fun _ => Resolves (Some [])) adCopyParams chunkA (mkState [chunkA] None)
           (or_intror eq_refl)))).
Defined.

(** C10, at the failing inputs: a response that is not empty but consists
    of white space only passes the test for an empty text and is then
    trimmed, so that [regenerateContentChunk] succeeds with the empty
    string. *)
Theorem whitespace_response_regenerates_empty
    (generateContent : Request -> apiOutcome) (params : ContentGenerationParams)
    (chunkToRegen : GeneratedContentChunk) (text : jsstring) :
  text <> [] -> allWhite text = true ->
  generateContent (mkRequest (productImage params)
                             (buildPrompt params (Some chunkToRegen))) =
    Resolves (Some text) ->
  regenerateContentChunk generateContent params chunkToRegen = Fulfilled [].
Proof.
  intros Hne Hw Hcall. unfold regenerateContentChunk. rewrite Hcall.
  destruct text as [|c t]; [congruence|]. simpl truthyOpt. simpl negb. cbv iota.
  simpl interp. apply trim_nil_iff in Hw. rewrite Hw. reflexivity.
Qed.

Lemma whitespace_response_regenerates_empty_witness :
  regenerateContentChunk (fun _ => Resolves (Some [space])) adCopyParams chunkA =
    Fulfilled [].
Proof.
  apply (whitespace_response_regenerates_empty
           (fun _ => Resolves (Some [space])) adCopyParams chunkA [space]).
  - discriminate.
  - reflexivity.
  - reflexivity.
Defined.

(* ===================================================================== *)
(** ** The prompt builder: properties *)
(* ===================================================================== *)

Section PromptFacts.

Lemma Contains_here (n b : jsstring) : Contains (n ++ b) n.
Proof. exists [], b. reflexivity. Qed.

Lemma basePrompt_in_buildPrompt params chunkToRegen :
  Contains (buildPrompt params chunkToRegen) (basePrompt params).
Proof.
  destruct chunkToRegen as [chunk|]; unfold buildPrompt.
  - exists (regenerationIntro ++ title chunk ++ dq ++ lit ". " ++ [nl; nl] ++
            regenerationInstruction ++ regenerationContextHeader), [nl].
    rewrite <- !app_assoc. reflexivity.
  - apply Contains_here.
Qed.

Lemma taskDirective_in_buildPrompt params chunkToRegen :
  Contains (buildPrompt params chunkToRegen) (taskDirective params).
Proof.
  apply (Contains_trans _ _ _ (basePrompt_in_buildPrompt params chunkToRegen)).
  unfold basePrompt.
  exists (baseInstructions ++ parameterLines params ++ taskHeader params),
    ([nl] ++ additionalRequirements params).
  rewrite <- !app_assoc. reflexivity.
Qed.






End PromptFacts.

(** C3, as stated, fails: the wrapper embeds the base prompt as it is
    before the closing line is appended, so the full non-regeneration
    prompt, which ends with that line, is not part of it. *)
Lemma wrapper_lacks_full_prompt :
  ~ Contains (buildPrompt adCopyParams (Some chunkA)) (buildPrompt adCopyParams None).
Proof. apply includes_false. vm_compute. reflexivity. Qed.

(** C3 (amended). Regeneration wrapping: whenever a target chunk is
    supplied, [buildPrompt] returns a wrapper that differs from the
    non-regeneration prompt, quotes the target chunk's title, tells the
    model to provide only the new text of that section, without title or
    heading marker, and embeds, under the heading of the original
    parameters, the non-regeneration prompt for the same parameters without
    its closing line ["Now, generate the content based on these
    instructions."]. *)
Theorem regeneration_wraps_base_prompt
    (params : ContentGenerationParams) (chunk : GeneratedContentChunk) :
  buildPrompt params (Some chunk) <> buildPrompt params None /\
  Contains (buildPrompt params (Some chunk)) (dq ++ title chunk ++ dq) /\
  Contains (buildPrompt params (Some chunk)) regenerationInstruction /\
  buildPrompt params None = basePrompt params ++ closingLine /\
  Contains (buildPrompt params (Some chunk))
           (lit "**ORIGINAL PARAMETERS**" ++ [nl] ++ lit "---" ++ [nl] ++ basePrompt params).
Proof.
  split; [|split; [|split; [|split]]].
  - intros H. apply (f_equal (firstn 19)) in H. vm_compute in H. discriminate.
  - exists (removelast regenerationIntro),
      (lit ". " ++ [nl; nl] ++ regenerationInstruction ++
       regenerationContextHeader ++ basePrompt params ++ [nl]).
    unfold buildPrompt.
    rewrite <- !app_assoc.
    replace regenerationIntro with (removelast regenerationIntro ++ dq) by reflexivity.
    rewrite <- !app_assoc. reflexivity.
  - exists (regenerationIntro ++ title chunk ++ dq ++ lit ". " ++ [nl; nl]),
      (regenerationContextHeader ++ basePrompt params ++ [nl]).
    unfold buildPrompt. rewrite <- !app_assoc. reflexivity.
  - reflexivity.
  - exists (regenerationIntro ++ title chunk ++ dq ++ lit ". " ++ [nl; nl] ++
            regenerationInstruction ++ [nl; nl] ++ lit "---" ++ [nl]), [nl].
    unfold buildPrompt. rewrite <- !app_assoc. reflexivity.
Qed.



(* ===================================================================== *)
(** ** Where a line of the prompt can begin with the SEO heading *)
(* ===================================================================== *)

Section OccurrenceFacts.

Lemma Contains_cons_iff (c : N) (s n : jsstring) :
  Contains (c :: s) n <-> startsWith n (c :: s) = true \/ Contains s n.
Proof.
  rewrite <- !includes_iff. simpl includes. rewrite orb_true_iff. tauto.
Qed.

Lemma Contains_nil_l (n : jsstring) : Contains [] n -> n = [].
Proof.
  intros [a [b H]]. destruct a; [|discriminate]. destruct n; [reflexivity | discriminate].
Qed.

Lemma mismatch_startsWith (n x z : jsstring) :
  mismatch n x = true -> startsWith n (x ++ z) = false.
Proof.
  revert x. induction n as [|a n IH]; intros [|b x] H; try discriminate.
  simpl in H |- *. destruct (a =? b)%N; simpl in H |- *; [apply IH, H | reflexivity].
Qed.

Lemma startsWith_cons (a b : N) (p s : jsstring) :
  startsWith (a :: p) (b :: s) = (a =? b)%N && startsWith p s.
Proof. reflexivity. Qed.

Lemma lineSafe_cons (n : jsstring) (c : N) (t : jsstring) :
  lineSafe n (c :: t) = (negb (c =? nl)%N || mismatch n t) && lineSafe n t.
Proof. reflexivity. Qed.

Lemma lineSafe_skip (n x z : jsstring) :
  lineSafe n x = true -> Contains (x ++ z) (nl :: n) -> Contains z (nl :: n).
Proof.
  induction x as [|c t IH]; intros H C; [exact C|].
  rewrite lineSafe_cons in H. apply andb_true_iff in H. destruct H as [H1 H2].
  simpl app in C. apply Contains_cons_iff in C. destruct C as [C | C]; [|auto].
  exfalso. rewrite startsWith_cons in C. apply andb_true_iff in C.
  destruct C as [C1 C2]. apply N.eqb_eq in C1. subst c.
  rewrite N.eqb_refl in H1. simpl in H1.
  rewrite (mismatch_startsWith _ _ _ H1) in C2. discriminate.
Qed.

Lemma startsWith_app_split (n t w : jsstring) :
  startsWith n (t ++ w) = true ->
  startsWith n t = true \/
  (startsWith t n = true /\ length t < length n /\
   startsWith (skipn (length t) n) w = true).
Proof.
  revert n. induction t as [|b t IH]; intros n H.
  - destruct n as [|a n]; [left; reflexivity|].
    right. simpl. split; [reflexivity | split; [lia | exact H]].
  - destruct n as [|a n]; [left; reflexivity|].
    simpl in H. apply andb_true_iff in H. destruct H as [Hab H].
    destruct (IH n H) as [L | [R1 [R2 R3]]].
    + left. simpl. rewrite Hab, L. reflexivity.
    + right. simpl. rewrite N.eqb_sym, Hab, R1. repeat split; [lia | exact R3].
Qed.

Lemma startsWith_common (m t n : jsstring) :
  startsWith m n = true -> startsWith t n = true -> length m <= length t ->
  startsWith m t = true.
Proof.
  revert t n. induction m as [|a m IH]; intros t n Hm Ht Hlen; [reflexivity|].
  destruct n as [|c n]; [discriminate|].
  destruct t as [|b t]; [simpl in Hlen; lia|].
  simpl in Hm, Ht, Hlen |- *.
  apply andb_true_iff in Hm, Ht. destruct Hm as [Hac Hm], Ht as [Hbc Ht].
  apply N.eqb_eq in Hac, Hbc. subst. rewrite N.eqb_refl. simpl.
  apply (IH t n); [assumption | assumption | lia].
Qed.

Lemma startsWith_trans (m n t : jsstring) :
  startsWith m n = true -> startsWith n t = true -> startsWith m t = true.
Proof.
  rewrite !startsWith_iff. intros [r ->] [r' ->]. exists (r ++ r').
  rewrite app_assoc. reflexivity.
Qed.

Lemma stopsPrefixes_mismatch (n f : jsstring) (bound k : nat) :
  stopsPrefixes n f bound = true -> k < bound -> mismatch (skipn k n) f = true.
Proof.
  induction bound as [|b IH]; intros H Hk; [lia|].
  simpl in H. apply andb_true_iff in H. destruct H as [H1 H2].
  destruct (Nat.eq_dec k b) as [-> | Hne]; [exact H1 | apply IH; [exact H2 | lia]].
Qed.

(** A field without the heading line cannot complete an occurrence of the
    directive with what follows it, provided what follows stops every
    beginning of the heading. *)
Lemma field_skip (n m u f z : jsstring) :
  startsWith m n = true -> stopsPrefixes n f (length m) = true ->
  ~ Contains u (nl :: m) ->
  Contains (u ++ f ++ z) (nl :: n) -> Contains (f ++ z) (nl :: n).
Proof.
  intros Hm Hstop. induction u as [|c t IH]; intros Hu C; [exact C|].
  simpl app in C. apply Contains_cons_iff in C. destruct C as [C | C].
  - exfalso. rewrite startsWith_cons in C. apply andb_true_iff in C.
    destruct C as [C1 C2]. apply N.eqb_eq in C1. subst c. apply Hu.
    apply Contains_cons_iff. left. rewrite startsWith_cons, N.eqb_refl. simpl andb.
    destruct (startsWith_app_split _ _ _ C2) as [L | [R1 [R2 R3]]].
    + apply (startsWith_trans m n t Hm L).
    + destruct (Nat.lt_ge_cases (length t) (length m)) as [Hlt | Hge].
      * rewrite (mismatch_startsWith _ _ z (stopsPrefixes_mismatch _ _ _ _ Hstop Hlt)) in R3.
        discriminate.
      * apply (startsWith_common m t n Hm R1 Hge).
  - apply IH; [|exact C]. intros Ht. apply Hu.
    apply Contains_cons_iff. right. exact Ht.
Qed.

(** A labelled line of the prompt: a label that is no beginning of the
    directive, a field, a line break. *)
Lemma line_skip (n m label u z : jsstring) :
  startsWith m n = true -> stopsPrefixes n [nl] (length m) = true ->
  lineSafe n (nl :: label) = true ->
  ~ Contains u (nl :: m) ->
  Contains (nl :: label ++ u ++ nl :: z) (nl :: n) -> Contains (nl :: z) (nl :: n).
Proof.
  intros Hm Hstop Hsafe Hu C.
  apply (lineSafe_skip n (nl :: label) (u ++ nl :: z) Hsafe) in C.
  apply (field_skip n m u [nl] z Hm Hstop Hu) in C. exact C.
Qed.

End OccurrenceFacts.

Section SeoDirectiveFacts.

Variable params : ContentGenerationParams.

Lemma seoFocus_unfold : seoFocus = nl :: seoFocusLine.
Proof. reflexivity. Qed.

Lemma seoHeading_prefix : startsWith seoHeading seoFocusLine = true.
Proof. vm_compute. reflexivity. Qed.

Lemma seo_line_skip (label u z : jsstring) :
  lineSafe seoFocusLine (nl :: label) = true ->
  ~ Contains u seoHeadingLine ->
  Contains (nl :: label ++ u ++ nl :: z) seoFocus -> Contains (nl :: z) seoFocus.
Proof.
  rewrite seoFocus_unfold. intros Hsafe Hu.
  apply (line_skip seoFocusLine seoHeading label u z seoHeading_prefix);
    [vm_compute; reflexivity | exact Hsafe | exact Hu].
Qed.

Lemma seo_optLine_skip (label : jsstring) (o : option jsstring) (z : jsstring) :
  lineSafe seoFocusLine (nl :: label) = true ->
  ~ optContains o seoHeadingLine ->
  Contains (nl :: optLine label o ++ z) seoFocus -> Contains (nl :: z) seoFocus.
Proof.
  intros Hsafe Ho. unfold optLine. destruct o as [u|]; simpl truthyOpt.
  - destruct (truthy u); [|intros C; exact C].
    simpl interp. rewrite <- !app_assoc. apply seo_line_skip; assumption.
  - intros C; exact C.
Qed.

(** The base instructions, the parameter echo and the task header: no line
    of them begins the directive. *)
Lemma seo_echo_skip (z : jsstring) :
  NoSeoHeading params ->
  Contains (baseInstructions ++ parameterLines params ++ taskHeader params ++ z) seoFocus ->
  Contains (nl :: z) seoFocus.
Proof.
  intros [Hname [Htype [Hcountry [Htone [_ [_ [Hkw [Hcompany [Hocc Hvoice]]]]]]]]] C.
  change baseInstructions with (removelast baseInstructions ++ [nl]) in C.
  rewrite <- app_assoc, seoFocus_unfold in C.
  apply lineSafe_skip in C; [|vm_compute; reflexivity].
  rewrite <- seoFocus_unfold in C.
  unfold parameterLines in C. rewrite <- !app_assoc in C.
  apply seo_line_skip in C; [|vm_compute; reflexivity | exact Hname].
  apply seo_line_skip in C; [|vm_compute; reflexivity | exact Htone].
  apply seo_line_skip in C; [|vm_compute; reflexivity | exact Hcountry].
  apply seo_optLine_skip in C; [|vm_compute; reflexivity | exact Hcompany].
  apply seo_optLine_skip in C; [|vm_compute; reflexivity | exact Hocc].
  apply seo_optLine_skip in C; [|vm_compute; reflexivity | exact Hvoice].
  apply seo_optLine_skip in C; [|vm_compute; reflexivity | exact Hkw].
  change (taskHeader params)
    with (([nl] ++ lit "---" ++ [nl] ++ lit "**GENERATION TASK**" ++ [nl] ++ lit "---"
           ++ [nl] ++ lit "**Content Type to Generate:** ")
          ++ contentType params ++ [nl]) in C.
  rewrite <- !app_assoc in C.
  apply (seo_line_skip
           ([nl] ++ lit "---" ++ [nl] ++ lit "**GENERATION TASK**" ++ [nl] ++ lit "---"
            ++ [nl] ++ lit "**Content Type to Generate:** ")
           (contentType params) z) in C; [|vm_compute; reflexivity | exact Htype].
  exact C.
Qed.

Lemma additional_closing :
  additionalRequirements params ++ closingLine =
  closingFor (generateAbTest params)
             (generateSocialPost params
              && negb (eqb (contentType params) (lit "Social Media Post"))).
Proof. unfold additionalRequirements, closingFor. rewrite <- app_assoc. reflexivity. Qed.

Lemma seo_fixed_tail (x : jsstring) (ab so : bool) :
  (forall ab so, includes seoFocus (x ++ closingFor ab so) = false) ->
  ~ Contains (x ++ closingFor ab so) seoFocus.
Proof. intros H. apply includes_false, H. Qed.

Lemma seo_field_tail (x u f : jsstring) (ab so : bool) :
  lineSafe seoFocusLine x = true ->
  stopsPrefixes seoFocusLine f (length seoHeading) = true ->
  (forall ab so, includes seoFocus (f ++ closingFor ab so) = false) ->
  ~ Contains u seoHeadingLine ->
  ~ Contains (x ++ u ++ f ++ closingFor ab so) seoFocus.
Proof.
  intros Hx Hf Htail Hu C. rewrite seoFocus_unfold in C.
  apply (lineSafe_skip _ _ _ Hx) in C.
  apply (field_skip seoFocusLine seoHeading u f _ seoHeading_prefix Hf Hu) in C.
  rewrite <- seoFocus_unfold in C. revert C. apply includes_false, Htail.
Qed.

Lemma seoDirective_off :
  seoInserted params = false ->
  existsb (eqb (contentType params)) seoContentTypes = true ->
  seoDirective params = [].
Proof.
  unfold seoInserted, seoDirective. intros H E. rewrite E, andb_true_r in H.
  rewrite H. reflexivity.
Qed.

(** The task directive, the additional requirements and the closing line:
    when the directive is not inserted, no line of them begins it. *)
Lemma seo_tail_off :
  NoSeoHeading params -> seoInserted params = false ->
  ~ Contains (nl :: taskDirective params ++ [nl] ++ additionalRequirements params
                 ++ closingLine) seoFocus.
Proof.
  intros [_ [_ [_ [_ [Hlen [Hrating _]]]]]] Hoff. rewrite additional_closing.
  generalize (generateAbTest params)
             (generateSocialPost params
              && negb (eqb (contentType params) (lit "Social Media Post"))).
  intros ab so. unfold taskDirective.
  destruct (eqb (contentType params) (lit "Product Description")) eqn:E1.
  { unfold productDescriptionTask, lengthDirective.
    rewrite (seoDirective_off Hoff)
      by (unfold seoContentTypes; cbn [existsb]; rewrite E1; reflexivity).
    destruct (contentLength params) as [l|]; simpl truthyOpt; simpl interp.
    - destruct (truthy l && negb (eqb l (lit "Default"))).
      + intros C.
        apply (seo_field_tail
                 (nl :: productDescriptionTask bareParams ++ lit " Keep the length ")
                 l (lit "." ++ [nl]) ab so); try assumption;
          try (vm_compute; reflexivity).
        * intros [|] [|]; vm_compute; reflexivity.
        * revert C. rewrite <- ?app_assoc. exact (fun c => c).
      + intros C.
        apply (seo_fixed_tail (nl :: productDescriptionTask bareParams ++ [nl]) ab so).
        * intros [|] [|]; vm_compute; reflexivity.
        * revert C. rewrite <- ?app_assoc. exact (fun c => c).
    - intros C.
      apply (seo_fixed_tail (nl :: productDescriptionTask bareParams ++ [nl]) ab so).
      + intros [|] [|]; vm_compute; reflexivity.
      + revert C. rewrite <- ?app_assoc. exact (fun c => c). }
  destruct (eqb (contentType params) (lit "Product Reviews (3)")) eqn:E2.
  { unfold productReviewsTask, ratingDirective.
    destruct (starRating params) as [r|]; simpl truthyOpt; simpl interp.
    - destruct (truthy r).
      + intros C.
        apply (seo_field_tail
                 (nl :: productReviewsTask bareParams ++ lit " The reviews should reflect a ")
                 r
                 (lit " rating. You can represent the stars visually (e.g., " ++ [11088%N; 11088%N; 11088%N; 11088%N; 11088%N] ++ lit "). Do not add any other metadata like 'Product Name' to the review body." ++ [nl])
                 ab so); try assumption;
          try (vm_compute; reflexivity).
        * intros [|] [|]; vm_compute; reflexivity.
        * revert C. rewrite <- ?app_assoc. exact (fun c => c).
      + intros C.
        apply (seo_fixed_tail (nl :: productReviewsTask bareParams ++ [nl]) ab so).
        * intros [|] [|]; vm_compute; reflexivity.
        * revert C. rewrite <- ?app_assoc. exact (fun c => c).
    - intros C.
      apply (seo_fixed_tail (nl :: productReviewsTask bareParams ++ [nl]) ab so).
      + intros [|] [|]; vm_compute; reflexivity.
      + revert C. rewrite <- ?app_assoc. exact (fun c => c). }
  destruct (eqb (contentType params) (lit "Social Media Post")) eqn:E3.
  { unfold socialMediaPostTask.
    rewrite (seoDirective_off Hoff)
      by (unfold seoContentTypes; cbn [existsb]; rewrite E3, ?orb_true_r; reflexivity).
    intros C.
    apply (seo_fixed_tail (nl :: socialMediaPostTask bareParams ++ [nl]) ab so).
    - intros [|] [|]; vm_compute; reflexivity.
    - revert C. rewrite <- ?app_assoc. exact (fun c => c). }
  destruct (eqb (contentType params) (lit "Email Campaign")) eqn:E4.
  { unfold emailCampaignTask.
    rewrite (seoDirective_off Hoff)
      by (unfold seoContentTypes; cbn [existsb]; rewrite E4, ?orb_true_r; reflexivity).
    intros C.
    apply (seo_fixed_tail (nl :: emailCampaignTask bareParams ++ [nl]) ab so).
    - intros [|] [|]; vm_compute; reflexivity.
    - revert C. rewrite <- ?app_assoc. exact (fun c => c). }
  destruct (eqb (contentType params) (lit "Blog Post Intro")) eqn:E5.
  { unfold blogPostIntroTask.
    rewrite (seoDirective_off Hoff)
      by (unfold seoContentTypes; cbn [existsb]; rewrite E5, ?orb_true_r; reflexivity).
    intros C.
    apply (seo_fixed_tail (nl :: blogPostIntroTask bareParams ++ [nl]) ab so).
    - intros [|] [|]; vm_compute; reflexivity.
    - revert C. rewrite <- ?app_assoc. exact (fun c => c). }
  destruct (eqb (contentType params) (lit "Ad Copy")) eqn:E6.
  { intros C.
    apply (seo_fixed_tail (nl :: adCopyTask bareParams ++ [nl]) ab so).
    - intros [|] [|]; vm_compute; reflexivity.
    - revert C. exact (fun c => c). }
  intros C.
  apply (seo_fixed_tail (nl :: fallbackTask ++ [nl]) ab so).
  - intros [|] [|]; vm_compute; reflexivity.
  - revert C. rewrite <- ?app_assoc. exact (fun c => c).
Qed.

End SeoDirectiveFacts.

Lemma seoInserted_iff (params : ContentGenerationParams) :
  seoInserted params = true <->
  truthyOpt (seoKeywords params) = true /\ truthy (productName params) = true /\
  In (contentType params) seoContentTypes.
Proof.
  unfold seoInserted. rewrite !andb_true_iff, existsb_exists. split.
  - intros [[H1 H2] [ty [Hin Heq]]]. apply eqb_eq in Heq. subst ty. tauto.
  - intros [H1 [H2 H3]]. repeat split; try assumption.
    exists (contentType params). split; [exact H3 | apply eqb_refl].
Qed.

Lemma seoFocus_in_taskDirective (params : ContentGenerationParams) :
  seoInserted params = true -> Contains (taskDirective params) seoFocus.
Proof.
  intros H. apply seoInserted_iff in H. destruct H as [H1 [H2 H3]].
  assert (Hs : seoDirective params = seoFocus)
    by (unfold seoDirective; rewrite H1, H2; reflexivity).
  unfold taskDirective. simpl in H3.
  destruct H3 as [E | [E | [E | [E | []]]]]; rewrite <- E; simpl eqb; cbv iota;
    unfold productDescriptionTask, socialMediaPostTask, emailCampaignTask,
           blogPostIntroTask; rewrite Hs;
    apply Contains_app_l, Contains_here.
Qed.

(** C2, as stated, fails: with SEO keywords and a product name, the prompt
    for the content type ["Ad Copy"] does not contain the SEO-hook
    directive, whose place is in the task directives of four content types
    only. *)
Lemma seo_directive_absent_for_ad_copy :
  truthyOpt (seoKeywords adCopyParams) = true /\
  truthy (productName adCopyParams) = true /\
  ~ Contains (buildPrompt adCopyParams None) seoFocus.
Proof.
  split; [reflexivity | split; [reflexivity|]].
  apply includes_false. vm_compute. reflexivity.
Qed.

(** C2 (amended). Presence-gated SEO directive: the prompt returned by
    [buildPrompt] with no regeneration target contains the SEO-hook
    directive whenever seoKeywords and productName are both non-empty and
    contentType is one of ["Product Description"], ["Social Media Post"],
    ["Email Campaign"], ["Blog Post Intro"]; and, for parameters none of whose
    text fields has a line that starts with the directive's heading
    ["**SEO Focus:**"], it contains the directive only then. *)
Theorem seo_directive_presence (params : ContentGenerationParams) :
  (truthyOpt (seoKeywords params) = true -> truthy (productName params) = true ->
   In (contentType params) seoContentTypes ->
   Contains (buildPrompt params None) seoFocus) /\
  (NoSeoHeading params -> Contains (buildPrompt params None) seoFocus ->
   truthyOpt (seoKeywords params) = true /\ truthy (productName params) = true /\
   In (contentType params) seoContentTypes).
Proof.
  split.
  - intros H1 H2 H3.
    apply (Contains_trans _ _ _ (taskDirective_in_buildPrompt params None)).
    apply seoFocus_in_taskDirective, seoInserted_iff. tauto.
  - intros Hno C. apply seoInserted_iff.
    destruct (seoInserted params) eqn:E; [reflexivity|]. exfalso.
    apply (seo_tail_off params Hno E).
    apply (seo_echo_skip params _ Hno).
    revert C. unfold buildPrompt, basePrompt. rewrite <- !app_assoc.
    exact (fun c => c).
Qed.

Lemma blogParams_no_seo_heading : NoSeoHeading blogParams.
Proof.
  unfold NoSeoHeading. simpl.
  repeat apply conj; try (apply includes_false; vm_compute; reflexivity);
    intros [].
Defined.

Lemma seo_directive_presence_witness :
  Contains (buildPrompt blogParams None) seoFocus /\
  (truthyOpt (seoKeywords blogParams) = true /\ truthy (productName blogParams) = true /\
   In (contentType blogParams) seoContentTypes).
Proof.
  split.
  - apply (proj1 (seo_directive_presence blogParams)).
    + reflexivity.
    + reflexivity.
    + simpl. tauto.
  - apply (proj2 (seo_directive_presence blogParams)).
    + exact blogParams_no_seo_heading.
    + apply includes_iff. vm_compute. reflexivity.
Defined.

(* ===================================================================== *)
(** ** The response chunker: further properties *)
(* ===================================================================== *)

Section ChunkerFacts.

Lemma mapiFrom_ids (k : nat) (l : list jsstring) :
  map id (mapiFrom sectionToChunk k l) = map chunkId (seq k (length l)).
Proof.
  revert k. induction l as [|x l IH]; intros k; [reflexivity|].
  rewrite mapiFrom_cons. simpl. rewrite IH. reflexivity.
Qed.

Lemma mapiFrom_length {A B} (f : A -> nat -> B) (k : nat) (l : list A) :
  length (mapiFrom f k l) = length l.
Proof.
  revert k. induction l as [|x l IH]; intros k; [reflexivity|].
  rewrite mapiFrom_cons. simpl. rewrite IH. reflexivity.
Qed.

Lemma parseContent_ids_seq (rawContent : jsstring) :
  map id (parseContent rawContent) =
  map chunkId (seq 0 (length (parseContent rawContent))).
Proof.
  destruct (parseContent_cases rawContent) as [E | [E | E]]; rewrite E.
  - reflexivity.
  - reflexivity.
  - unfold mapi. rewrite mapiFrom_length. apply mapiFrom_ids.
Qed.

Lemma chunkIds_NoDup (k n : nat) : NoDup (map chunkId (seq k n)).
Proof.
  revert k. induction n as [|n IH]; intros k; [constructor|].
  simpl. constructor; [|apply IH].
  intros H. apply in_map_iff in H. destruct H as [j [Hj Hin]].
  apply chunkId_inj in Hj. apply in_seq in Hin. lia.
Qed.

Lemma parseContent_ids_NoDup (rawContent : jsstring) :
  NoDup (map id (parseContent rawContent)).
Proof. rewrite parseContent_ids_seq. apply chunkIds_NoDup. Qed.

(** A chunk of a list without repeated identifiers is the only one with
    its identifier: the chunks before and after it are kept by a filter on
    the other identifiers and left alone by an update at its identifier. *)
Lemma unique_id_split (l : list GeneratedContentChunk) (c : GeneratedContentChunk) :
  NoDup (map id l) -> In c l ->
  exists pre post, l = pre ++ c :: post /\
    Forall (fun d => eqb (id d) (id c) = false) pre /\
    Forall (fun d => eqb (id d) (id c) = false) post.
Proof.
  intros Hnd Hin. destruct (in_split _ _ Hin) as [pre [post ->]].
  exists pre, post. split; [reflexivity|].
  rewrite map_app in Hnd. simpl in Hnd.
  pose proof (NoDup_remove_2 _ _ _ Hnd) as Hno.
  split; apply Forall_forall; intros d Hd; apply eqb_neq; intros E;
    apply Hno, in_or_app; [left | right]; rewrite <- E; apply in_map, Hd.
Qed.

Lemma filter_others (target : jsstring) (l : list GeneratedContentChunk) :
  Forall (fun d => eqb (id d) target = false) l ->
  filter (fun chunk => negb (eqb (id chunk) target)) l = l.
Proof.
  induction 1 as [|d l Hd _ IH]; [reflexivity|].
  simpl. rewrite Hd. simpl. rewrite IH. reflexivity.
Qed.

Lemma setContent_others (target newContent : jsstring) (l : list GeneratedContentChunk) :
  Forall (fun d => eqb (id d) target = false) l ->
  map (setContent target newContent) l = l.
Proof.
  induction 1 as [|d l Hd _ IH]; [reflexivity|].
  simpl. unfold setContent at 1. rewrite Hd, IH. reflexivity.
Qed.

Lemma setContent_at (l : list GeneratedContentChunk) (c : GeneratedContentChunk)
    (newContent : jsstring) :
  NoDup (map id l) -> In c l ->
  exists pre post, l = pre ++ c :: post /\
    map (setContent (id c) newContent) l =
    pre ++ mkChunk (id c) (title c) newContent :: post.
Proof.
  intros Hnd Hin. destruct (unique_id_split l c Hnd Hin) as [pre [post [-> [Hpre Hpost]]]].
  exists pre, post. split; [reflexivity|].
  rewrite map_app. simpl. rewrite (setContent_others _ _ _ Hpre), (setContent_others _ _ _ Hpost).
  unfold setContent at 1. rewrite eqb_refl. reflexivity.
Qed.

Lemma In_trimStart (a : N) (s : jsstring) : In a (trimStart s) -> In a s.
Proof.
  destruct (trimStart_suffix s) as [w [E _]]. intros H. rewrite E.
  apply in_or_app. right. exact H.
Qed.

Lemma In_trim (a : N) (s : jsstring) : In a (trim s) -> In a s.
Proof.
  unfold trim. intros H. apply In_trimStart.
  destruct (trimEnd_prefix (trimStart s)) as [w [E _]]. rewrite E.
  apply in_or_app. left. exact H.
Qed.

Lemma In_skipn (a : N) (n : nat) (s : jsstring) : In a (skipn n s) -> In a s.
Proof.
  intros H. rewrite <- (firstn_skipn n s). apply in_or_app. right. exact H.
Qed.

Lemma In_replaceFirst_nil (pat s : jsstring) (a : N) :
  In a (replaceFirst pat [] s) -> In a s.
Proof.
  induction s as [|c t IH]; simpl.
  - destruct (startsWith pat []); simpl; [|tauto].
    intros H. apply In_skipn in H. exact H.
  - destruct (startsWith pat (c :: t)).
    + simpl app. apply In_skipn.
    + intros [H | H]; [left; exact H | right; apply IH, H].
Qed.

Lemma first_line_no_sep (sep : N) (s : jsstring) :
  ~ In sep (hd [] (splitChar sep s)).
Proof.
  induction s as [|c t IH]; simpl; [tauto|].
  destruct (c =? sep)%N eqn:E; simpl; [tauto|].
  intros [H | H]; [apply N.eqb_neq in E; congruence | exact (IH H)].
Qed.

Lemma splitBeforeMarker_single (rawContent : jsstring) :
  markerFree (tl rawContent) = true -> splitBeforeMarker rawContent = [rawContent].
Proof.
  destruct rawContent as [|c u]; [reflexivity|]. simpl tl. intros H.
  rewrite <- cutFree_nil_r in H.
  pose proof (splitBeforeMarker_app c u [] H) as E.
  rewrite app_nil_r in E. rewrite E. simpl. rewrite app_nil_r. reflexivity.
Qed.

Lemma parseContent_single_section (rawContent : jsstring) :
  allWhite rawContent = false -> splitBeforeMarker rawContent = [rawContent] ->
  parseContent rawContent = [mkChunk (chunkId 0) defaultTitle (trim rawContent)].
Proof.
  intros Hw Hs. unfold parseContent, sections. rewrite Hs.
  destruct rawContent as [|c t]; [discriminate|]. simpl negb. cbv iota.
  assert (Ht : truthy (trim (c :: t)) = true).
  { destruct (trim (c :: t)) eqn:E; [|reflexivity].
    apply trim_nil_iff in E. congruence. }
  rewrite Ht. simpl filter.
  destruct (negb (eqb (trim (c :: t)) [])); reflexivity.
Qed.

End ChunkerFacts.

(** X1. Identifiers by position: the chunks of a parse are numbered
    [chunk-0], [chunk-1], ... in order, so no two of them share an
    identifier. *)
Theorem parseContent_ids_positional (rawContent : jsstring) :
  map id (parseContent rawContent) =
    map chunkId (seq 0 (length (parseContent rawContent))) /\
  NoDup (map id (parseContent rawContent)).
Proof.
  split; [apply parseContent_ids_seq | apply parseContent_ids_NoDup].
Qed.

(** X2. No chunk only for blank input: [parseContent] returns the empty
    list exactly for the inputs that are empty or white space only. *)
Theorem parseContent_empty_iff_blank (rawContent : jsstring) :
  parseContent rawContent = [] <-> allWhite rawContent = true.
Proof.
  split.
  - intros H. destruct (allWhite rawContent) eqn:Hw; [reflexivity|]. exfalso.
    revert H. unfold parseContent.
    destruct rawContent as [|c t]; [discriminate|]. simpl negb. cbv iota.
    destruct (trim (c :: t)) eqn:E; [apply trim_nil_iff in E; congruence|].
    simpl truthy. rewrite andb_true_r.
    destruct (length (sections (c :: t)) <=? 1) eqn:L; [discriminate|].
    apply Nat.leb_gt in L. destruct (sections (c :: t)); [simpl in L; lia|].
    discriminate.
  - intros H. unfold parseContent.
    destruct (negb (truthy rawContent)); [reflexivity|].
    apply trim_nil_iff in H. rewrite (sections_blank _ H), H. reflexivity.
Qed.

(** X3. Titles on one line: no title of a parse contains a line break. *)
Theorem parseContent_titles_single_line
    (rawContent : jsstring) (c : GeneratedContentChunk) :
  In c (parseContent rawContent) -> ~ In nl (title c).
Proof.
  destruct (parseContent_cases rawContent) as [E | [E | E]]; rewrite E.
  - contradiction.
  - intros [<- | []]. simpl. vm_compute. intuition discriminate.
  - unfold mapi. intros Hc. apply In_mapiFrom in Hc.
    destruct Hc as [i [x [_ ->]]]. simpl. intros H.
    apply In_trim, In_replaceFirst_nil in H.
    exact (first_line_no_sep nl _ H).
Qed.

Lemma parseContent_titles_single_line_witness :
  ~ In nl (lit "A").
Proof.
  apply (parseContent_titles_single_line twoHeadings
           (mkChunk (lit "chunk-0") (lit "A") (lit "body1"))).
  vm_compute. left. reflexivity.
Defined.

(** X4. A text with no heading marker after its first character is one
    fallback chunk: if ["###"] followed by white space occurs nowhere in the
    input, or only at its very start, and the input is not blank, the parse
    is the single chunk titled ["Generated Content"] whose body is the whole
    trimmed input, heading line included. *)
Theorem parseContent_without_inner_marker (rawContent : jsstring) :
  allWhite rawContent = false -> markerFree (tl rawContent) = true ->
  parseContent rawContent =
  [mkChunk (lit "chunk-0") (lit "Generated Content") (trim rawContent)].
Proof.
  intros Hw Hm.
  apply (parseContent_single_section rawContent Hw (splitBeforeMarker_single _ Hm)).
Qed.

Lemma parseContent_without_inner_marker_witness :
  parseContent oneHeading =
  [mkChunk (lit "chunk-0") (lit "Generated Content") oneHeading].
Proof.
  apply (parseContent_without_inner_marker oneHeading); reflexivity.
Defined.

(** X5. A list of one chunk loses its heading: the reassembly of a single
    well-formed chunk is parsed as the fallback chunk, whose body is the
    rendered chunk, title line included. *)
Theorem single_chunk_reparsed_as_fallback (c : GeneratedContentChunk) :
  WellFormedChunk c ->
  parseContent (updateFullContentFromChunks [c]) =
  [mkChunk (lit "chunk-0") (lit "Generated Content") (renderChunk c)].
Proof.
  intros Hwf.
  change (updateFullContentFromChunks [c]) with (renderChunk c).
  rewrite <- (Trimmed_trim _ (rendered_Trimmed c Hwf)) at 2.
  apply parseContent_single_section.
  - rewrite renderChunk_unfold. reflexivity.
  - pose proof (splitBeforeMarker_reassembled [c] ltac:(discriminate)
                  (Forall_cons c Hwf (Forall_nil _))) as H.
    exact H.
Qed.

Lemma single_chunk_reparsed_as_fallback_witness :
  parseContent (updateFullContentFromChunks
                  [mkChunk (lit "chunk-1") (lit "CTA Button: Shop now")
                           (lit "Shop the Aurora line")]) =
  [mkChunk (lit "chunk-0") (lit "Generated Content")
           (lit "### CTA Button: Shop now" ++ [nl; nl] ++ lit "Shop the Aurora line")].
Proof.
  apply (single_chunk_reparsed_as_fallback
           (mkChunk (lit "chunk-1") (lit "CTA Button: Shop now")
                    (lit "Shop the Aurora line"))).
  pose proof emailChunks_well_formed as H. inversion H as [|? ? _ H2].
  inversion H2 as [|? ? H3 _]. exact H3.
Defined.

(** X6. The split loses nothing: the pieces of the split before heading
    markers, concatenated in order, are the input, and none of them is
    empty unless the input is. *)
Theorem split_partitions_input (rawContent : jsstring) :
  concat (splitBeforeMarker rawContent) = rawContent /\
  (rawContent <> [] -> Forall (fun p => p <> []) (splitBeforeMarker rawContent)).
Proof.
  split; [apply concat_splitBeforeMarker | apply splitBeforeMarker_pieces_nonempty].
Qed.

Lemma split_partitions_input_witness :
  Forall (fun p => p <> []) (splitBeforeMarker midLineMarker).
Proof.
  apply (proj2 (split_partitions_input midLineMarker)). discriminate.
Defined.

(* ===================================================================== *)
(** ** The chunk handlers: further properties *)
(* ===================================================================== *)

(** X7. Deleting a displayed chunk removes that chunk and nothing else:
    the chunks before and after it stay, in order, and the text handed on
    is the reassembly of what stays. *)
Theorem delete_removes_one_chunk (rawContent : jsstring) (c : GeneratedContentChunk) :
  In c (parseContent rawContent) ->
  exists pre post,
    parseContent rawContent = pre ++ c :: post /\
    handleDeleteChunk (displayed rawContent) (id c) =
      (mkState (pre ++ post) None,
       Some (updateFullContentFromChunks (pre ++ post))).
Proof.
  intros Hc.
  destruct (unique_id_split _ c (parseContent_ids_NoDup rawContent) Hc)
    as [pre [post [E [Hpre Hpost]]]].
  exists pre, post. split; [exact E|].
  unfold handleDeleteChunk, displayed. simpl chunks. simpl regeneratingChunkId.
  rewrite E, filter_app. simpl filter. rewrite eqb_refl. simpl negb. cbv iota.
  rewrite (filter_others _ _ Hpre), (filter_others _ _ Hpost). reflexivity.
Qed.

Lemma delete_removes_one_chunk_witness :
  exists pre post,
    parseContent twoHeadings = pre ++ mkChunk (lit "chunk-0") (lit "A") (lit "body1") :: post /\
    handleDeleteChunk (displayed twoHeadings) (lit "chunk-0") =
      (mkState (pre ++ post) None,
       Some (updateFullContentFromChunks (pre ++ post))).
Proof.
  apply (delete_removes_one_chunk twoHeadings
           (mkChunk (lit "chunk-0") (lit "A") (lit "body1"))).
  vm_compute. left. reflexivity.
Defined.

(** X8. Editing a displayed chunk changes the body of that chunk only: its
    identifier and title, and all other chunks, stay as they are, and the
    text handed on is the reassembly of the edited list. *)
Theorem update_changes_one_body
    (rawContent : jsstring) (c : GeneratedContentChunk) (newContent : jsstring) :
  In c (parseContent rawContent) ->
  exists pre post,
    parseContent rawContent = pre ++ c :: post /\
    handleUpdateChunk (displayed rawContent) (id c) newContent =
      (mkState (pre ++ mkChunk (id c) (title c) newContent :: post) None,
       Some (updateFullContentFromChunks
               (pre ++ mkChunk (id c) (title c) newContent :: post))).
Proof.
  intros Hc.
  destruct (setContent_at _ c newContent (parseContent_ids_NoDup rawContent) Hc)
    as [pre [post [E E']]].
  exists pre, post. split; [exact E|].
  unfold handleUpdateChunk, displayed. simpl chunks. simpl regeneratingChunkId.
  rewrite E'. reflexivity.
Qed.

Lemma update_changes_one_body_witness :
  exists pre post,
    parseContent twoHeadings = pre ++ mkChunk (lit "chunk-1") (lit "B") (lit "body2") :: post /\
    handleUpdateChunk (displayed twoHeadings) (lit "chunk-1") (lit "new body") =
      (mkState (pre ++ mkChunk (lit "chunk-1") (lit "B") (lit "new body") :: post) None,
       Some (updateFullContentFromChunks
               (pre ++ mkChunk (lit "chunk-1") (lit "B") (lit "new body") :: post))).
Proof.
  apply (update_changes_one_body twoHeadings
           (mkChunk (lit "chunk-1") (lit "B") (lit "body2")) (lit "new body")).
  vm_compute. right. left. reflexivity.
Defined.

(** X9. A successful regeneration is an edit with the trimmed response:
    when the call resolves with a non-empty text, the displayed target chunk
    gets the trimmed text as its body, its title and the other chunks stay,
    no chunk is marked as regenerating any more, and the reassembly of the
    new list is handed on. *)
Theorem regeneration_replaces_one_body
    (generateContent : Request -> apiOutcome) (params : ContentGenerationParams)
    (rawContent : jsstring) (c : GeneratedContentChunk) (text : jsstring) :
  In c (parseContent rawContent) -> text <> [] ->
  generateContent (mkRequest (productImage params) (buildPrompt params (Some c))) =
    Resolves (Some text) ->
  exists pre post,
    parseContent rawContent = pre ++ c :: post /\
    handleRegenerateChunk generateContent (Some params) (displayed rawContent) c =
      (mkState (pre ++ mkChunk (id c) (title c) (trim text) :: post) None,
       Some (updateFullContentFromChunks
               (pre ++ mkChunk (id c) (title c) (trim text) :: post))).
Proof.
  intros Hc Hne Hcall.
  destruct (setContent_at _ c (trim text) (parseContent_ids_NoDup rawContent) Hc)
    as [pre [post [E E']]].
  exists pre, post. split; [exact E|].
  unfold handleRegenerateChunk, regenerateContentChunk. rewrite Hcall.
  destruct text as [|a t]; [congruence|]. simpl truthyOpt. simpl negb. cbv iota.
  simpl interp. unfold displayed. simpl chunks. rewrite E'. reflexivity.
Qed.

Lemma regeneration_replaces_one_body_witness :
  exists pre post,
    parseContent twoHeadings = pre ++ mkChunk (lit "chunk-0") (lit "A") (lit "body1") :: post /\
    handleRegenerateChunk (fun _ => Resolves (Some (lit " fresh body ")))
        (Some adCopyParams) (displayed twoHeadings)
        (mkChunk (lit "chunk-0") (lit "A") (lit "body1")) =
      (mkState (pre ++ mkChunk (lit "chunk-0") (lit "A") (trim (lit " fresh body ")) :: post) None,
       Some (updateFullContentFromChunks
               (pre ++ mkChunk (lit "chunk-0") (lit "A") (trim (lit " fresh body ")) :: post))).
Proof.
  apply (regeneration_replaces_one_body (fun _ => Resolves (Some (lit " fresh body ")))
           adCopyParams twoHeadings
           (mkChunk (lit "chunk-0") (lit "A") (lit "body1")) (lit " fresh body ")).
  - vm_compute. left. reflexivity.
  - discriminate.
  - reflexivity.
Defined.

(** X10. When [regenerateContentChunk] fulfils and when it rejects: it
    fulfils exactly when the call resolves with a non-empty text, and then
    with the trimmed text; every rejection carries a non-empty message. *)
Theorem regeneration_outcomes
    (generateContent : Request -> apiOutcome) (params : ContentGenerationParams)
    (chunkToRegen : GeneratedContentChunk) :
  (forall newContent,
     regenerateContentChunk generateContent params chunkToRegen = Fulfilled newContent <->
     exists text,
       generateContent (mkRequest (productImage params)
                                  (buildPrompt params (Some chunkToRegen))) =
         Resolves (Some text) /\
       text <> [] /\ newContent = trim text) /\
  (forall message,
     regenerateContentChunk generateContent params chunkToRegen = Rejected message ->
     message <> []).
Proof.
  unfold regenerateContentChunk. split.
  - intros newContent.
    destruct (generateContent _) as [e | [[|a t] |]]; simpl; split;
      try discriminate;
      try (intros [text [H1 [H2 H3]]]; try discriminate;
           injection H1 as <-; subst; congruence).
    intros [= <-]. exists (a :: t). repeat split. discriminate.
  - intros message.
    destruct (generateContent _) as [[m|] | [[|a t] |]]; simpl;
      intros [= <-]; discriminate.
Qed.

Lemma regeneration_outcomes_witness :
  exists text,
    (fun _ : Request => Resolves (Some (lit " fresh body ")))
      (mkRequest (productImage adCopyParams) (buildPrompt adCopyParams (Some chunkA))) =
      Resolves (Some text) /\
    text <> [] /\ lit "fresh body" = trim text.
Proof.
  apply (proj1 (regeneration_outcomes
                  (fun _ => Resolves (Some (lit " fresh body "))) adCopyParams chunkA)
               (lit "fresh body")).
  reflexivity.
Defined.

(* ===================================================================== *)
(** ** Streaming: properties *)
(* ===================================================================== *)

Section StreamFacts.

Lemma fold_consume (l : list (option jsstring)) (acc : loopState) :
  fold_left consume l acc =
  (fst acc ++ concat (nonEmptyTexts l), snd acc ++ nonEmptyTexts l).
Proof.
  revert acc. induction l as [|text l IH]; intros [full calls].
  - simpl. rewrite !app_nil_r. reflexivity.
  - simpl fold_left. rewrite IH. unfold consume.
    destruct text as [[|c t] |]; simpl; try reflexivity.
    rewrite <- !app_assoc. reflexivity.
Qed.

Lemma runLoop_eq (run : StreamRun) :
  runLoop run = (concat (nonEmptyTexts (received run)), nonEmptyTexts (received run)).
Proof. unfold runLoop. rewrite fold_consume. reflexivity. Qed.

Lemma nonEmptyTexts_nonempty (l : list (option jsstring)) :
  Forall (fun t => t <> []) (nonEmptyTexts l).
Proof.
  induction l as [|text l IH]; [constructor|].
  destruct text as [[|c t] |]; simpl; try exact IH.
  constructor; [discriminate | exact IH].
Qed.

Lemma fold_appendChunk (calls : list jsstring) (shown : jsstring) :
  fold_left appendChunk calls (Some shown) = Some (shown ++ concat calls).
Proof.
  revert shown. induction calls as [|x calls IH]; intros shown.
  - simpl. rewrite app_nil_r. reflexivity.
  - simpl fold_left.
    assert (E : appendChunk (Some shown) x = Some (shown ++ x))
      by (destruct shown; reflexivity).
    rewrite E, IH. simpl concat. rewrite <- app_assoc. reflexivity.
Qed.

Lemma rethrowGenerate_truthy (e : thrown) : truthy (rethrowGenerate e) = true.
Proof. destruct e; reflexivity. Qed.

End StreamFacts.

(** X11. What is streamed is what is returned: [streamGeneratedContent]
    calls [onChunk] with the texts of the stream that are neither missing
    nor empty, in order, also when the stream fails afterwards; when the
    stream ends without failure, the promise is fulfilled with the
    concatenation of the texts passed to [onChunk]. *)
Theorem stream_returns_what_it_delivers
    (generateContentStream : Request -> StreamRun) (params : ContentGenerationParams) :
  let run := generateContentStream
               (mkRequest (productImage params) (buildPrompt params None)) in
  fst (streamGeneratedContent generateContentStream params) =
    nonEmptyTexts (received run) /\
  Forall (fun t => t <> []) (fst (streamGeneratedContent generateContentStream params)) /\
  (thrownAfter run = None ->
   snd (streamGeneratedContent generateContentStream params) =
     Fulfilled (concat (fst (streamGeneratedContent generateContentStream params)))).
Proof.
  cbv zeta. unfold streamGeneratedContent. rewrite runLoop_eq.
  destruct (thrownAfter _); simpl; repeat split;
    try apply nonEmptyTexts_nonempty; discriminate.
Qed.

Lemma stream_returns_what_it_delivers_witness :
  snd (streamGeneratedContent (fun _ => fourChunkRun) adCopyParams) =
    Fulfilled (concat (fst (streamGeneratedContent (fun _ => fourChunkRun) adCopyParams))).
Proof.
  apply (proj2 (proj2 (stream_returns_what_it_delivers (fun _ => fourChunkRun) adCopyParams))).
  reflexivity.
Defined.

(** X12. A failing stream rejects, after delivering what it received: when
    the call or the iteration throws, the promise of
    [streamGeneratedContent] is rejected with a non-empty message, which is
    ["Failed to generate content: "] followed by the message of the error
    thrown, if an [Error] was thrown; the texts received before have been
    passed to [onChunk]. *)
Theorem stream_failure_is_reported
    (generateContentStream : Request -> StreamRun) (params : ContentGenerationParams)
    (e : thrown) :
  thrownAfter (generateContentStream
                 (mkRequest (productImage params) (buildPrompt params None))) = Some e ->
  streamGeneratedContent generateContentStream params =
    (nonEmptyTexts (received (generateContentStream
                                (mkRequest (productImage params) (buildPrompt params None)))),
     Rejected (rethrowGenerate e)) /\
  rethrowGenerate e <> [] /\
  (forall message, e = ErrorObject message ->
     rethrowGenerate e = lit "Failed to generate content: " ++ message).
Proof.
  intros H. unfold streamGeneratedContent. rewrite runLoop_eq, H.
  split; [reflexivity | split].
  - destruct e; discriminate.
  - intros message ->. reflexivity.
Qed.

Lemma stream_failure_is_reported_witness :
  streamGeneratedContent (fun _ => brokenRun) adCopyParams =
    ([lit "### Ad 1"], Rejected (lit "Failed to generate content: 503")).
Proof.
  apply (proj1 (stream_failure_is_reported (fun _ => brokenRun) adCopyParams
                  (ErrorObject (lit "503")) eq_refl)).
Defined.

(** X13. The view shows what it saves: when the stream ends without
    failure, [handleGenerate] leaves as generated content the text that it
    saves to the history, with the parameters of the request; the view is
    not loading, shows no error, and the generation is counted once. *)
Theorem generate_shows_what_it_saves
    (generateContentStream : Request -> StreamRun) (st : ViewState)
    (params : ContentGenerationParams) :
  thrownAfter (generateContentStream
                 (mkRequest (productImage params) (buildPrompt params None))) = None ->
  exists finalContent,
    finalContent =
      concat (nonEmptyTexts
                (received (generateContentStream
                             (mkRequest (productImage params) (buildPrompt params None))))) /\
    handleGenerate generateContentStream st params =
      (mkView false None (Some finalContent) (Some params),
       mkCalls [(params, finalContent)] 1 1).
Proof.
  intros H. eexists. split; [reflexivity|].
  unfold handleGenerate, streamGeneratedContent. rewrite runLoop_eq, H.
  rewrite fold_appendChunk. reflexivity.
Qed.

Lemma generate_shows_what_it_saves_witness :
  exists finalContent,
    finalContent = concat (nonEmptyTexts (received fourChunkRun)) /\
    handleGenerate (fun _ => fourChunkRun) idleView adCopyParams =
      (mkView false None (Some finalContent) (Some adCopyParams),
       mkCalls [(adCopyParams, finalContent)] 1 1).
Proof.
  apply (generate_shows_what_it_saves (fun _ => fourChunkRun) idleView adCopyParams).
  reflexivity.
Defined.

(** X14. A failed generation clears the view and saves nothing: when the
    stream fails, [handleGenerate] leaves no generated content, also when
    texts had been received, shows the message of the rejection as error,
    saves nothing to the history and still counts the generation. *)
Theorem failed_generation_clears_view
    (generateContentStream : Request -> StreamRun) (st : ViewState)
    (params : ContentGenerationParams) (e : thrown) :
  thrownAfter (generateContentStream
                 (mkRequest (productImage params) (buildPrompt params None))) = Some e ->
  handleGenerate generateContentStream st params =
    (mkView false (Some (rethrowGenerate e)) None (Some params),
     mkCalls [] 0 1).
Proof.
  intros H. unfold handleGenerate, streamGeneratedContent. rewrite runLoop_eq, H.
  rewrite rethrowGenerate_truthy. reflexivity.
Qed.

Lemma failed_generation_clears_view_witness :
  handleGenerate (fun _ => brokenRun) idleView adCopyParams =
    (mkView false (Some (lit "Failed to generate content: 503")) None (Some adCopyParams),
     mkCalls [] 0 1).
Proof.
  apply (failed_generation_clears_view (fun _ => brokenRun) idleView adCopyParams
           (ErrorObject (lit "503"))).
  reflexivity.
Defined.

(** X15. The tone matters to the improver only for the action
    ["Change Tone"]: for every other action [streamImprovedContent] makes
    the same request and gives the same result whatever tone it is given;
    for ["Change Tone"] with a non-empty tone the prompt names the tone. The
    original text is part of the prompt in every case. *)
Theorem improver_tone_only_for_change_tone
    (generateContentStream : Request -> StreamRun)
    (originalText improvementAction : jsstring) (tone : option jsstring) :
  (improvementAction <> lit "Change Tone" ->
   improvePrompt originalText improvementAction tone =
     improvePrompt originalText improvementAction None /\
   streamImprovedContent generateContentStream originalText improvementAction tone =
     streamImprovedContent generateContentStream originalText improvementAction None) /\
  (improvementAction = lit "Change Tone" ->
   forall t, tone = Some t -> t <> [] ->
     Contains (improvePrompt originalText improvementAction tone)
              (lit "**New Tone:** " ++ t ++ [nl])) /\
  Contains (improvePrompt originalText improvementAction tone)
           (lit "**ORIGINAL TEXT**" ++ [nl] ++ lit "---" ++ [nl] ++ originalText ++ [nl; nl]).
Proof.
  split; [|split].
  - intros H. apply eqb_neq in H.
    assert (E : improvePrompt originalText improvementAction tone =
                improvePrompt originalText improvementAction None)
      by (unfold improvePrompt; rewrite H; reflexivity).
    split; [exact E|]. unfold streamImprovedContent. rewrite E. reflexivity.
  - intros -> t -> Ht. unfold improvePrompt. rewrite eqb_refl.
    destruct t as [|a t]; [congruence|]. simpl truthyOpt. simpl andb. cbv iota.
    simpl interp. apply Contains_app_l, Contains_app_r, Contains_refl.
  - unfold improvePrompt. do 2 apply Contains_app_l.
    exists ([nl] ++ lit "---" ++ [nl]),
      (lit "---" ++ [nl] ++ lit "**IMPROVED TEXT (Your Output):**" ++ [nl] ++ lit "---" ++ [nl]).
    rewrite <- !app_assoc. reflexivity.
Qed.

Lemma improver_tone_only_for_change_tone_witness :
  improvePrompt (lit "Gold.") (lit "Improve SEO") (Some (lit "Casual")) =
    improvePrompt (lit "Gold.") (lit "Improve SEO") None /\
  Contains (improvePrompt (lit "Gold.") (lit "Change Tone") (Some (lit "Casual")))
           (lit "**New Tone:** " ++ lit "Casual" ++ [nl]).
Proof.
  split.
  - apply (proj1 (improver_tone_only_for_change_tone (fun _ => fourChunkRun)
                    (lit "Gold.") (lit "Improve SEO") (Some (lit "Casual")))).
    discriminate.
  - apply (proj1 (proj2 (improver_tone_only_for_change_tone (fun _ => fourChunkRun)
                    (lit "Gold.") (lit "Change Tone") (Some (lit "Casual"))))
                 eq_refl (lit "Casual") eq_refl).
    discriminate.
Defined.

(* ===================================================================== *)
(** ** The prompt builder: what each parameter can change *)
(* ===================================================================== *)

Section GatingFacts.

Lemma Contains_in_basePrompt_task params chunkToRegen (n : jsstring) :
  Contains (taskDirective params) n -> Contains (buildPrompt params chunkToRegen) n.
Proof.
  intros H. exact (Contains_trans _ _ _ (taskDirective_in_buildPrompt params chunkToRegen) H).
Qed.

Lemma buildPrompt_ext (p q : ContentGenerationParams) chunkToRegen :
  basePrompt p = basePrompt q -> buildPrompt p chunkToRegen = buildPrompt q chunkToRegen.
Proof.
  intros H. destruct chunkToRegen; unfold buildPrompt; rewrite H; reflexivity.
Qed.

End GatingFacts.

(** X16. The length directive is gated: for ["Product Description"] with a
    content length that is set, not empty and not ["Default"], the prompt
    tells to keep that length; for every other content type, and for a
    length that is empty or ["Default"], the prompt is the one built without
    any content length. *)
Theorem length_directive_gated
    (params : ContentGenerationParams) (chunkToRegen : option GeneratedContentChunk) :
  (contentType params = lit "Product Description" ->
   forall l, contentLength params = Some l -> l <> [] -> l <> lit "Default" ->
     Contains (buildPrompt params chunkToRegen) (lit " Keep the length " ++ l ++ lit ".")) /\
  (contentType params <> lit "Product Description" \/
   contentLength params = Some [] \/ contentLength params = Some (lit "Default") ->
   buildPrompt params chunkToRegen =
     buildPrompt (withContentLength None params) chunkToRegen).
Proof.
  split.
  - intros Hty l Hl Hne Hnd. apply Contains_in_basePrompt_task.
    unfold taskDirective. rewrite Hty. simpl eqb. cbv iota.
    unfold productDescriptionTask, lengthDirective. rewrite Hl.
    destruct l as [|a t]; [congruence|]. simpl truthyOpt. simpl interp.
    apply eqb_neq in Hnd. rewrite Hnd. simpl andb. cbv iota.
    do 3 apply Contains_app_l. apply Contains_refl.
  - intros H. apply buildPrompt_ext. destruct params as [pn ty co tn len sr kw cn oc bv ab sp im].
    unfold basePrompt, taskDirective, productDescriptionTask, lengthDirective,
           withContentLength.
    cbn [productName contentType country tone contentLength starRating seoKeywords
         companyName occasion brandVoice generateAbTest generateSocialPost productImage] in *.
    destruct (eqb ty (lit "Product Description")) eqn:E; [|reflexivity].
    apply eqb_eq in E. destruct H as [H | [-> | ->]]; [congruence | reflexivity | reflexivity].
Qed.

Lemma length_directive_gated_witness :
  Contains (buildPrompt descriptionParams None) (lit " Keep the length " ++ lit "Short" ++ lit ".") /\
  buildPrompt reviewParams None = buildPrompt (withContentLength None reviewParams) None.
Proof.
  split.
  - apply (proj1 (length_directive_gated descriptionParams None) eq_refl (lit "Short") eq_refl);
      discriminate.
  - apply (proj2 (length_directive_gated reviewParams None)). left. discriminate.
Defined.

(** X17. The rating directive is gated: for ["Product Reviews (3)"] with a
    non-empty star rating the prompt asks for reviews that reflect that
    rating; for every other content type, and for an empty rating, the
    prompt is the one built without any star rating. *)
Theorem rating_directive_gated
    (params : ContentGenerationParams) (chunkToRegen : option GeneratedContentChunk) :
  (contentType params = lit "Product Reviews (3)" ->
   forall r, starRating params = Some r -> r <> [] ->
     Contains (buildPrompt params chunkToRegen)
              (lit " The reviews should reflect a " ++ r ++ lit " rating.")) /\
  (contentType params <> lit "Product Reviews (3)" \/ starRating params = Some [] ->
   buildPrompt params chunkToRegen =
     buildPrompt (withStarRating None params) chunkToRegen).
Proof.
  split.
  - intros Hty r Hr Hne. apply Contains_in_basePrompt_task.
    unfold taskDirective. rewrite Hty. simpl eqb. cbv iota.
    unfold productReviewsTask, ratingDirective. rewrite Hr.
    destruct r as [|a t]; [congruence|]. simpl truthyOpt. cbv iota. simpl interp.
    apply Contains_app_l.
    exists [], (lit " You can represent the stars visually (e.g., " ++ [11088%N; 11088%N; 11088%N; 11088%N; 11088%N] ++ lit "). Do not add any other metadata like 'Product Name' to the review body.").
    rewrite <- !app_assoc. reflexivity.
  - intros H. apply buildPrompt_ext. destruct params as [pn ty co tn len sr kw cn oc bv ab sp im].
    unfold basePrompt, taskDirective, productReviewsTask, ratingDirective, withStarRating.
    cbn [productName contentType country tone contentLength starRating seoKeywords
         companyName occasion brandVoice generateAbTest generateSocialPost productImage] in *.
    destruct (eqb ty (lit "Product Description")) eqn:E0; [reflexivity|].
    destruct (eqb ty (lit "Product Reviews (3)")) eqn:E; [|reflexivity].
    apply eqb_eq in E. destruct H as [H | ->]; [congruence | reflexivity].
Qed.

Lemma rating_directive_gated_witness :
  Contains (buildPrompt reviewParams None)
           (lit " The reviews should reflect a " ++ lit "5 Stars" ++ lit " rating.") /\
  buildPrompt descriptionParams None = buildPrompt (withStarRating None descriptionParams) None.
Proof.
  split.
  - apply (proj1 (rating_directive_gated reviewParams None) eq_refl (lit "5 Stars") eq_refl).
    discriminate.
  - apply (proj2 (rating_directive_gated descriptionParams None)). left. discriminate.
Defined.

(** X18. No companion social post for a social post: for the content type
    ["Social Media Post"] the prompt is the same with and without the flag
    generateSocialPost; for every other content type the flag adds the
    request for a related social media post. *)
Theorem social_post_flag_gated
    (params : ContentGenerationParams) (chunkToRegen : option GeneratedContentChunk) :
  (contentType params = lit "Social Media Post" ->
   buildPrompt params chunkToRegen =
     buildPrompt (withGenerateSocialPost false params) chunkToRegen) /\
  (contentType params <> lit "Social Media Post" -> generateSocialPost params = true ->
   Contains (buildPrompt params chunkToRegen)
            ([nl] ++ lit "**Also generate a related social media post**. Title it "
             ++ dq ++ lit "### Social Media Post" ++ dq ++ lit ".")).
Proof.
  split.
  - intros Hty. apply buildPrompt_ext.
    destruct params as [pn ty co tn len sr kw cn oc bv ab sp im].
    unfold basePrompt, additionalRequirements, withGenerateSocialPost.
    cbn [productName contentType country tone contentLength starRating seoKeywords
         companyName occasion brandVoice generateAbTest generateSocialPost productImage] in *.
    rewrite Hty. rewrite eqb_refl, !andb_false_r. reflexivity.
  - intros Hty Hflag.
    apply (Contains_trans _ _ _ (basePrompt_in_buildPrompt params chunkToRegen)).
    unfold basePrompt, additionalRequirements. apply eqb_neq in Hty.
    rewrite Hflag, Hty. simpl andb. cbv iota.
    do 6 apply Contains_app_l. apply Contains_refl.
Qed.

Lemma social_post_flag_gated_witness :
  buildPrompt socialParams None = buildPrompt (withGenerateSocialPost false socialParams) None /\
  Contains (buildPrompt reviewParams None)
           ([nl] ++ lit "**Also generate a related social media post**. Title it "
            ++ dq ++ lit "### Social Media Post" ++ dq ++ lit ".").
Proof.
  split.
  - apply (proj1 (social_post_flag_gated socialParams None)). reflexivity.
  - apply (proj2 (social_post_flag_gated reviewParams None)); [discriminate | reflexivity].
Defined.

(* ===================================================================== *)
(** ** Export: properties *)
(* ===================================================================== *)

Section ExportFacts.

Lemma sanitized_char_safe (c : N) :
  isFileNameChar
    ((fun c => if (65 <=? c) && (c <=? 90) then c + 32 else c)
       (if isAlnum c then c else underscore))%N = true.
Proof.
  cbv beta. destruct (isAlnum c) eqn:A; [|reflexivity].
  unfold isAlnum in A. rewrite !orb_true_iff, !andb_true_iff, !N.leb_le in A.
  unfold isFileNameChar.
  destruct ((65 <=? c) && (c <=? 90))%N eqn:U.
  - rewrite andb_true_iff, !N.leb_le in U.
    rewrite !orb_true_iff, !andb_true_iff, !N.leb_le, N.eqb_eq. lia.
  - rewrite andb_false_iff, !N.leb_gt in U.
    rewrite !orb_true_iff, !andb_true_iff, !N.leb_le, N.eqb_eq. lia.
Qed.

Lemma sanitized_safe (s : jsstring) :
  forallb isFileNameChar (sanitizedProductName s) = true.
Proof.
  unfold sanitizedProductName, toLowerCaseAscii, replaceNonAlnum.
  rewrite map_map. induction s as [|c s IH]; [reflexivity|].
  simpl. rewrite IH, andb_true_r. apply sanitized_char_safe.
Qed.

Lemma sanitized_length (s : jsstring) :
  length (sanitizedProductName s) = length s.
Proof.
  unfold sanitizedProductName, toLowerCaseAscii, replaceNonAlnum.
  rewrite !length_map. reflexivity.
Qed.




End ExportFacts.

(** X19. A safe download name: whenever [handleExport] produces a
    download, its name is the product name with every code unit other than
    an ASCII letter or digit replaced by an underscore and the letters in
    lower case, followed by ["_content."] and the format; the first part is
    as long as the product name, is not empty, and consists of lower-case
    letters, digits and underscores only. *)
Theorem export_filename_safe
    (params : ContentGenerationParams) (chunks : list GeneratedContentChunk)
    (f : exportFormat) (d : Download) :
  handleExport (Some params) chunks f = Some d ->
  filename d = sanitizedProductName (productName params) ++ lit "_content." ++ formatName f /\
  forallb isFileNameChar (sanitizedProductName (productName params)) = true /\
  length (sanitizedProductName (productName params)) = length (productName params) /\
  productName params <> [].
Proof.
  unfold handleExport. intros H.
  destruct (productName params) as [|a t] eqn:E; [discriminate|].
  simpl negb in H. simpl orb in H.
  destruct (length chunks =? 0); [discriminate|].
  injection H as <-.
  split; [destruct f; reflexivity | split; [apply sanitized_safe | split]].
  - apply sanitized_length.
  - discriminate.
Qed.

Lemma export_filename_safe_witness :
  filename (mkDownload (lit "aurora_necklace_content.md") (lit "text/markdown;charset=utf-8")
                       (updateFullContentFromChunks emailChunks)) =
    sanitizedProductName (lit "Aurora Necklace") ++ lit "_content." ++ formatName md.
Proof.
  apply (proj1 (export_filename_safe adCopyParams emailChunks md
           (mkDownload (lit "aurora_necklace_content.md") (lit "text/markdown;charset=utf-8")
                       (updateFullContentFromChunks emailChunks))
           eq_refl)).
Defined.



(** X21. A markdown export can be read back: the content of the markdown
    download is the text that [updateFullContentFromChunks] writes for the
    same chunks, so that [parseContent] of the exported file has the titles
    and bodies of the exported chunks, for a list of at least two
    well-formed chunks. *)
Theorem markdown_export_reads_back
    (params : ContentGenerationParams) (chunks : list GeneratedContentChunk)
    (d : Download) :
  handleExport (Some params) chunks md = Some d ->
  fileContent d = updateFullContentFromChunks chunks /\
  (length chunks <> 1 -> Forall WellFormedChunk chunks ->
   sameText (parseContent (fileContent d)) chunks).
Proof.
  unfold handleExport. intros H.
  destruct (negb (truthy (productName params)) || (length chunks =? 0)); [discriminate|].
  injection H as <-. simpl fileContent.
  split; [reflexivity|]. intros Hlen Hwf.
  apply (parseContent_reassembled chunks Hlen Hwf).
Qed.

Lemma markdown_export_reads_back_witness :
  sameText
    (parseContent
       (fileContent (mkDownload (lit "aurora_necklace_content.md")
                                (lit "text/markdown;charset=utf-8")
                                (updateFullContentFromChunks emailChunks))))
    emailChunks.
Proof.
  apply (proj2 (markdown_export_reads_back adCopyParams emailChunks
           (mkDownload (lit "aurora_necklace_content.md") (lit "text/markdown;charset=utf-8")
                       (updateFullContentFromChunks emailChunks))
           eq_refl)).
  - simpl. lia.
  - exact emailChunks_well_formed.
Defined.

(* ===================================================================== *)
(** ** Handlers and the parse of what they hand on *)
(* ===================================================================== *)

Section ReparseFacts.

Lemma setContent_well_formed (targetId newContent : jsstring)
    (l : list GeneratedContentChunk) :
  WellFormedBody newContent -> Forall WellFormedChunk l ->
  Forall WellFormedChunk (map (setContent targetId newContent) l).
Proof.
  intros Hb. induction 1 as [|d l [Ht Hd] _ IH]; [constructor|].
  simpl. constructor; [|exact IH].
  unfold setContent. destruct (eqb (id d) targetId); split; assumption.
Qed.

Lemma filter_well_formed (f : GeneratedContentChunk -> bool)
    (l : list GeneratedContentChunk) :
  Forall WellFormedChunk l -> Forall WellFormedChunk (filter f l).
Proof.
  induction 1 as [|d l Hd _ IH]; [constructor|].
  simpl. destruct (f d); [constructor; assumption | exact IH].
Qed.

End ReparseFacts.

(** X22. An edit survives the parse of the new text: when the chunks shown
    are well formed and are not a single chunk, and a body is replaced by a
    well-formed text, the text handed on by [handleUpdateChunk] is parsed
    into chunks with the titles and bodies of the edited list. *)
Theorem edit_survives_reparse
    (st : OutputState) (targetId newContent : jsstring) :
  Forall WellFormedChunk (chunks st) -> length (chunks st) <> 1 ->
  WellFormedBody newContent ->
  exists newRawContent,
    snd (handleUpdateChunk st targetId newContent) = Some newRawContent /\
    sameText (chunks (displayed newRawContent))
             (chunks (fst (handleUpdateChunk st targetId newContent))).
Proof.
  intros Hwf Hlen Hb. eexists. split; [reflexivity|].
  unfold handleUpdateChunk, displayed. simpl.
  apply parseContent_reassembled.
  - rewrite length_map. exact Hlen.
  - apply setContent_well_formed; assumption.
Qed.

Lemma edit_survives_reparse_witness :
  exists newRawContent,
    snd (handleUpdateChunk (mkState emailChunks None) (lit "chunk-1") (lit "Buy")) =
      Some newRawContent /\
    sameText (chunks (displayed newRawContent))
             (chunks (fst (handleUpdateChunk (mkState emailChunks None)
                             (lit "chunk-1") (lit "Buy")))).
Proof.
  apply (edit_survives_reparse (mkState emailChunks None) (lit "chunk-1") (lit "Buy")).
  - exact emailChunks_well_formed.
  - simpl. lia.
  - repeat split; try discriminate.
    + apply Trimmed_of_trim. reflexivity.
    + apply Trimmed_of_trim. reflexivity.
Defined.

(** X23. A deletion survives the parse of the new text, while two chunks
    remain: when the chunks shown are well formed and the deletion leaves
    at least two of them, or none, the text handed on by
    [handleDeleteChunk] is parsed into chunks with the titles and bodies of
    the remaining list. *)
Theorem deletion_survives_reparse (st : OutputState) (targetId : jsstring) :
  Forall WellFormedChunk (chunks st) ->
  length (chunks (fst (handleDeleteChunk st targetId))) <> 1 ->
  exists newRawContent,
    snd (handleDeleteChunk st targetId) = Some newRawContent /\
    sameText (chunks (displayed newRawContent))
             (chunks (fst (handleDeleteChunk st targetId))).
Proof.
  intros Hwf Hlen. eexists. split; [reflexivity|].
  unfold handleDeleteChunk, displayed in *. simpl in *.
  apply parseContent_reassembled; [exact Hlen | apply filter_well_formed, Hwf].
Qed.

Lemma threeChunks_well_formed : Forall WellFormedChunk threeChunks.
Proof.
  constructor; [|exact emailChunks_well_formed].
  repeat split; try discriminate;
    try (apply Trimmed_of_trim; vm_compute; reflexivity).
  simpl. intros H. repeat (destruct H as [H|H]; [discriminate|]). exact H.
Defined.

Lemma deletion_survives_reparse_witness :
  exists newRawContent,
    snd (handleDeleteChunk (mkState threeChunks None) (lit "chunk-1")) =
      Some newRawContent /\
    sameText (chunks (displayed newRawContent))
             (chunks (fst (handleDeleteChunk (mkState threeChunks None) (lit "chunk-1")))).
Proof.
  apply (deletion_survives_reparse (mkState threeChunks None) (lit "chunk-1")).
  - exact threeChunks_well_formed.
  - vm_compute. lia.
Defined.
